(** * sercat: serial read/write test program

    A shallow embedding of [sercat.c] and the verification of its speed
    table, its device configuration and its relay loop.

    The pure parts (the [speeds] table and its two lookups, the option
    parser) are Rocq functions.  The parts that talk to the operating
    system ([device_open], the relay loop of [main]) are interaction
    trees over the calls the C code makes; [run] executes such a tree
    against a model of the operating system and records every call. *)

From Stdlib Require Import ZArith List String Ascii Lia Bool.
From Stdlib Require Strings.Byte Lists.Finite.
From ITree Require Import ITree ITreeFacts.
Import ListNotations ITreeNotations.

Local Open Scope string_scope.
Local Open Scope list_scope.
Local Open Scope Z_scope.
Local Open Scope itree_scope.

Set Implicit Arguments.

(* ===================================================================== *)
(** * Machine integers *)
(* ===================================================================== *)

(** [unsigned int], [speed_t], [tcflag_t] and [uint32_t] are 32-bit
    unsigned; [int] is 32-bit two's complement.  Values are kept in [Z]
    and conversions are written out. *)

Definition UINT_MAX : Z := 4294967295.

(** Conversion to a 32-bit unsigned type. *)
Definition to_uint (z : Z) : Z := z mod 4294967296.

(** Conversion to [int]. *)
Definition to_int (z : Z) : Z :=
  let u := z mod 4294967296 in
  if u <? 2147483648 then u else u - 4294967296.

(** What the parent process sees of [exit(code)]. *)
Definition wait_status (code : Z) : Z := Z.land code 255.

(* ===================================================================== *)
(** * The platform: what <termios.h>, <fcntl.h>, <errno.h> and libc give *)
(* ===================================================================== *)

(** The names of the speed macros the table mentions. *)
Inductive baud : Type :=
| B0 | B50 | B75 | B110 | B134 | B150 | B200 | B300 | B600 | B1200
| B1800 | B2400 | B4800 | B9600 | B19200 | B38400
| B57600 | B115200 | B230400 | B460800 | B500000 | B576000 | B921600
| B1000000 | B1152000 | B1500000 | B2000000 | B2500000 | B3000000
| B3500000 | B4000000.

(** [struct termios] as glibc lays it out. *)
Record termios : Type := {
  c_iflag : Z;
  c_oflag : Z;
  c_cflag : Z;
  c_lflag : Z;
  c_line : Z;
  c_cc : list Z;
  c_ispeed : Z;
  c_ospeed : Z
}.

Definition set_c_cflag (t : termios) (v : Z) : termios :=
  {| c_iflag := c_iflag t; c_oflag := c_oflag t; c_cflag := v;
     c_lflag := c_lflag t; c_line := c_line t; c_cc := c_cc t;
     c_ispeed := c_ispeed t; c_ospeed := c_ospeed t |}.

(** The headers and pure library functions the program is compiled
    against.  None of them is declared in the repository, so the program
    is parametric in them. *)
Record platform : Type := {
  code : baud -> Z;              (* the [speed_t] value of a macro *)
  defined : baud -> bool;        (* whether [#ifdef] finds the macro *)
  O_RDONLY : Z;
  O_WRONLY : Z;
  TCSANOW : Z;
  TCIOFLUSH : Z;
  CRTSCTS : Z;
  ENOTTY : Z;
  cfmakeraw : termios -> termios;
  cfgetispeed : termios -> Z;
  cfgetospeed : termios -> Z;
  strerror : Z -> string;
  strtoul0 : string -> Z;        (* [strtoul(s, NULL, 0)] *)
  getprogname : string
}.

(* ===================================================================== *)
(** * The speed table and its lookups *)
(* ===================================================================== *)

(** [struct speed]. *)
Record speed : Type := { sym : Z; val : Z }.

Section SpeedTable.

Variable P : platform.

Definition ent (b : baud) (v : Z) : speed := {| sym := code P b; val := v |}.

(** An entry under [#ifdef b ... #endif]. *)
Definition ifdef (b : baud) (e : speed) : list speed :=
  if defined P b then [e] else [].

Definition speeds : list speed :=
  [ ent B0 0;
    ent B50 50;
    ent B75 75;
    ent B110 110;
    ent B134 134;
    ent B150 150;
    ent B200 200;
    ent B300 300;
    ent B600 600;
    ent B1200 1200;
    ent B1800 1800;
    ent B2400 2400;
    ent B4800 4800;
    ent B9600 9600;
    ent B19200 19200;
    ent B38400 38400 ]
  ++ ifdef B57600 (ent B57600 57600)
  ++ ifdef B115200 (ent B115200 115200)
  ++ ifdef B230400 (ent B230400 230400)
  ++ ifdef B460800 (ent B460800 460800)
  ++ ifdef B500000 (ent B500000 500000)
  ++ ifdef B576000 (ent B576000 576000)
  ++ ifdef B921600 (ent B921600 921600)
  ++ ifdef B1000000 (ent B1000000 1000000)
  ++ ifdef B1152000 (ent B1152000 1152000)
  ++ ifdef B1500000 (ent B1500000 1500000)
  ++ ifdef B2000000 (ent B2000000 2000000)
  ++ ifdef B2500000 (ent B2500000 2500000)
  ++ ifdef B3000000 (ent B3000000 3000000)
  ++ ifdef B3500000 (ent B3500000 3500000)
  ++ ifdef B4000000 (ent B4000000 4000000).

(** The [for] loop of [get_speed_val] over the entries not yet visited:
    the first entry whose [sym] matches decides; [-1] when none does.
    The result type is [int]. *)
Fixpoint scan_val (l : list speed) (s : Z) : Z :=
  match l with
  | [] => -1
  | e :: l' => if sym e =? s then to_int (val e) else scan_val l' s
  end.

Definition get_speed_val (s : Z) : Z := scan_val speeds s.

(** The [for] loop of [get_speed_sym]; the result type is [speed_t], so
    [return -1] yields [UINT_MAX]. *)
Fixpoint scan_sym (l : list speed) (v : Z) : Z :=
  match l with
  | [] => to_uint (-1)
  | e :: l' => if val e =? v then sym e else scan_sym l' v
  end.

Definition get_speed_sym (v : Z) : Z := scan_sym speeds v.

End SpeedTable.

(** The same platform with every speed macro defined. *)
Definition all_defined (P : platform) : platform :=
  {| code := code P; defined := fun _ => true;
     O_RDONLY := O_RDONLY P; O_WRONLY := O_WRONLY P; TCSANOW := TCSANOW P;
     TCIOFLUSH := TCIOFLUSH P; CRTSCTS := CRTSCTS P; ENOTTY := ENOTTY P;
     cfmakeraw := cfmakeraw P; cfgetispeed := cfgetispeed P;
     cfgetospeed := cfgetospeed P; strerror := strerror P;
     strtoul0 := strtoul0 P; getprogname := getprogname P |}.

(* ===================================================================== *)
(** * Calls into the operating system and libc *)
(* ===================================================================== *)

Definition byte : Type := Byte.byte.

(** Calls whose answer the environment decides.  The answer type of a
    call is its C return value, paired with what the call stores through
    a pointer argument.  [Errno] is a read of the variable [errno]. *)
Variant sysE : Type -> Type :=
| Open (pathname : string) (flags : Z) : sysE Z
| Tcgetattr (fd : Z) : sysE (Z * termios)
| Tcsetattr (fd : Z) (optional_actions : Z) (t : termios) : sysE Z
| Cfsetspeed (t : termios) (s : Z) : sysE (Z * termios)
| Tcflush (fd : Z) (queue_selector : Z) : sysE Z
| Read (fd : Z) (count : Z) : sysE (Z * list byte)
| Write (fd : Z) (data : list byte) : sysE Z
| Close (fd : Z) : sysE Z
| Errno : sysE Z.

(** An argument of a [printf]-style call after the format. *)
Inductive arg : Type :=
| ArgS (s : string)
| ArgI (z : Z).

Inductive stream : Type := stdout | stderr.

(** Formatted output.  Format strings are kept as the source spells
    them, escape sequences included. *)
Variant stdioE : Type -> Type :=
| Fprintf (f : stream) (fmt : string) (args : list arg) : stdioE unit.

(** [exit] does not return. *)
Variant exitE : Type -> Type :=
| Exit (status : Z) : exitE void.

Definition E : Type -> Type := exitE +' stdioE +' sysE.

Definition sys {X} (c : sysE X) : itree E X :=
  Vis (inr1 (inr1 c)) (fun x => Ret x).

Definition fprintf (f : stream) (fmt : string) (args : list arg) : itree E unit :=
  Vis (inr1 (inl1 (Fprintf f fmt args))) (fun x => Ret x).

Definition exit {R} (status : Z) : itree E R :=
  Vis (inl1 (Exit status)) (fun v : void => match v with end).

(* ===================================================================== *)
(** * The program *)
(* ===================================================================== *)

Definition BUF_SIZE : Z := 1024.

(** The [opt_*] globals.  The flags only ever hold 0 or 1 and are only
    tested for truth; [opt_dev] is a possibly null pointer into [argv]. *)
Record opts : Type := {
  opt_dev : option string;
  opt_speed : Z;
  opt_read : bool;
  opt_write : bool;
  opt_hwflow : bool;
  opt_noflow : bool;
  opt_verbose : bool
}.

(** Static storage is zero-initialised. *)
Definition opts0 : opts :=
  {| opt_dev := None; opt_speed := 0; opt_read := false; opt_write := false;
     opt_hwflow := false; opt_noflow := false; opt_verbose := false |}.

Definition set_hwflow (o : opts) : opts :=
  {| opt_dev := opt_dev o; opt_speed := opt_speed o; opt_read := opt_read o;
     opt_write := opt_write o; opt_hwflow := true; opt_noflow := opt_noflow o;
     opt_verbose := opt_verbose o |}.

Definition set_noflow (o : opts) : opts :=
  {| opt_dev := opt_dev o; opt_speed := opt_speed o; opt_read := opt_read o;
     opt_write := opt_write o; opt_hwflow := opt_hwflow o; opt_noflow := true;
     opt_verbose := opt_verbose o |}.

Definition set_read (o : opts) : opts :=
  {| opt_dev := opt_dev o; opt_speed := opt_speed o; opt_read := true;
     opt_write := opt_write o; opt_hwflow := opt_hwflow o;
     opt_noflow := opt_noflow o; opt_verbose := opt_verbose o |}.

Definition set_write (o : opts) : opts :=
  {| opt_dev := opt_dev o; opt_speed := opt_speed o; opt_read := opt_read o;
     opt_write := true; opt_hwflow := opt_hwflow o;
     opt_noflow := opt_noflow o; opt_verbose := opt_verbose o |}.

Definition set_speed (o : opts) (v : Z) : opts :=
  {| opt_dev := opt_dev o; opt_speed := v; opt_read := opt_read o;
     opt_write := opt_write o; opt_hwflow := opt_hwflow o;
     opt_noflow := opt_noflow o; opt_verbose := opt_verbose o |}.

Definition set_verbose (o : opts) : opts :=
  {| opt_dev := opt_dev o; opt_speed := opt_speed o; opt_read := opt_read o;
     opt_write := opt_write o; opt_hwflow := opt_hwflow o;
     opt_noflow := opt_noflow o; opt_verbose := true |}.

Definition set_dev (o : opts) (d : string) : opts :=
  {| opt_dev := Some d; opt_speed := opt_speed o; opt_read := opt_read o;
     opt_write := opt_write o; opt_hwflow := opt_hwflow o;
     opt_noflow := opt_noflow o; opt_verbose := opt_verbose o |}.

Definition ESC_RED : string := "\e[31m".
Definition ESC_RM : string := "\e[0m".

Definition usage_text : string :=
  ("\n"
  ++ "%s: [options] <dev>\n\n"
  ++ "Valid options are:\n"
  ++ "    -h, --help       Display this usage information\n"
  ++ "    -f, --hwflow     Enable hardware flow control (RTS/CTS)\n"
  ++ "    -n, --noflow     Disable hardware flow control\n"
  ++ "    -r, --read       Read mode (default)\n"
  ++ "    -s, --speed      Serial speed\n"
  ++ "    -v, --verbose    Enable verbose mode\n"
  ++ "    -w, --write      Write mode\n"
  ++ "\n")%string.

(** [buf] after a call has stored [d] at its start. *)
Definition store (buf d : list byte) : list byte :=
  firstn (Z.to_nat BUF_SIZE) (d ++ skipn (List.length d) buf).

Section Program.

Variable P : platform.

(** The option loop of [main] over [argv[1..]].  [None] stands for a
    call of [usage]; the loop has no other effect than on the globals. *)
Fixpoint parse_args (args : list string) (o : opts) : option opts :=
  match args with
  | [] => Some o
  | a :: rest =>
    if (a =? "-h")%string || (a =? "--help")%string then None
    else if (a =? "-f")%string || (a =? "--hwflow")%string then
      parse_args rest (set_hwflow o)
    else if (a =? "-n")%string || (a =? "--noflow")%string then
      parse_args rest (set_noflow o)
    else if (a =? "-r")%string || (a =? "--read")%string then
      parse_args rest (set_read o)
    else if (a =? "-w")%string || (a =? "--write")%string then
      parse_args rest (set_write o)
    else if (a =? "-s")%string || (a =? "--speed")%string then
      match rest with
      | [] => None
      | v :: rest' => parse_args rest' (set_speed o (to_uint (strtoul0 P v)))
      end
    else if (a =? "-v")%string || (a =? "--verbose")%string then
      parse_args rest (set_verbose o)
    else
      match opt_dev o with
      | None => parse_args rest (set_dev o a)
      | Some _ => None
      end
  end.

Definition pr_debug (o : opts) (fmt : string) (args : list arg) : itree E unit :=
  if opt_verbose o then fprintf stdout fmt args else Ret tt.

Definition pr_info (fmt : string) (args : list arg) : itree E unit :=
  fprintf stdout fmt args.

Definition pr_error (fmt : string) (args : list arg) : itree E unit :=
  fprintf stderr (ESC_RED ++ fmt ++ ESC_RM)%string args.

Definition usage {R} : itree E R :=
  fprintf stderr usage_text [ArgS (getprogname P)];;
  exit 1.

Definition device_open (o : opts) (pathname : string) (flags : Z) : itree E Z :=
  pr_debug o "Opening %s...\n" [ArgS pathname];;
  fd <- sys (Open pathname flags);;
  if fd <? 0 then
    e <- sys Errno;;
    pr_error "Failed to open %s%s: %s\n"
      [ArgS pathname;
       ArgS (if flags =? O_WRONLY P then " for writing"
             else if flags =? O_RDONLY P then " for reading" else "");
       ArgS (strerror P e)];;
    exit (-1)
  else
  '(r, termios) <- sys (Tcgetattr fd);;
  if negb (r =? 0) then
    e <- sys Errno;;
    if e =? ENOTTY P then
      pr_info "%s is not a tty, skipping tty config\n" [ArgS pathname];;
      Ret fd
    else
      e <- sys Errno;;
      pr_error "Failed to get terminal attributes: %s\n" [ArgS (strerror P e)];;
      exit (-1)
  else
  pr_debug o "termios.c_iflag = 0%o\n" [ArgI (c_iflag termios)];;
  pr_debug o "termios.c_oflag = 0%o\n" [ArgI (c_oflag termios)];;
  pr_debug o "termios.c_cflag = 0%o\n" [ArgI (c_cflag termios)];;
  pr_debug o "termios.c_lflag = 0%o\n" [ArgI (c_lflag termios)];;
  pr_debug o "Enable terminal raw mode\n" [];;
  let termios := cfmakeraw P termios in
  r <- sys (Tcsetattr fd (TCSANOW P) termios);;
  if negb (r =? 0) then
    e <- sys Errno;;
    pr_error "Failed to enable raw mode: %s\n" [ArgS (strerror P e)];;
    exit (-1)
  else
  termios <-
    (if opt_hwflow o || opt_noflow o then
       let termios :=
         if opt_hwflow o
         then set_c_cflag termios (Z.lor (c_cflag termios) (CRTSCTS P))
         else set_c_cflag termios
                (Z.land (c_cflag termios) (to_uint (Z.lnot (CRTSCTS P)))) in
       pr_debug o "%sabling hardware flow control\n"
         [ArgS (if opt_hwflow o then "En" else "Dis")];;
       r <- sys (Tcsetattr fd (TCSANOW P) termios);;
       if negb (r =? 0) then
         e <- sys Errno;;
         pr_error "Failed to %sable hardware flow control: %s\n"
           [ArgS (if opt_hwflow o then "en" else "dis"); ArgS (strerror P e)];;
         exit (-1)
       else Ret termios
     else Ret termios);;
  (if negb (opt_speed o =? 0) then
     let sym := to_int (get_speed_sym P (opt_speed o)) in
     if sym =? -1 then
       pr_error "Unknown serial speed %u\n" [ArgI (opt_speed o)];;
       exit (-1)
     else
     pr_debug o "Setting serial speed to %u bps\n" [ArgI (opt_speed o)];;
     '(r, termios) <- sys (Cfsetspeed termios (to_uint sym));;
     if negb (r =? 0) then
       e <- sys Errno;;
       pr_error "Failed to set serial speed: %s\n" [ArgS (strerror P e)];;
       exit (-1)
     else
     r <- sys (Tcsetattr fd (TCSANOW P) termios);;
     if negb (r =? 0) then
       e <- sys Errno;;
       pr_error "Failed to set speed attribute: %s\n" [ArgS (strerror P e)];;
       exit (-1)
     else Ret tt
   else
     pr_debug o "Serial speed is %u/%u\n"
       [ArgI (get_speed_val P (cfgetispeed P termios));
        ArgI (get_speed_val P (cfgetospeed P termios))]);;
  pr_debug o "Flushing terminal\n" [];;
  r <- sys (Tcflush fd (TCIOFLUSH P));;
  if negb (r =? 0) then
    e <- sys Errno;;
    pr_error "Failed to flush: %s\n" [ArgS (strerror P e)];;
    exit (-1)
  else
  Ret fd.

(** One turn of the [while (1)] loop of [main]: [inl] goes round again
    with the buffer as the turn left it, [inr] is the [break]. *)
Definition relay_turn (rx_fd tx_fd : Z) (buf : list byte)
  : itree E (list byte + unit) :=
  '(in_, d) <- sys (Read rx_fd BUF_SIZE);;
  let buf := store buf d in
  if in_ =? 0 then Ret (inr tt)
  else if in_ <? 0 then
    e <- sys Errno;;
    pr_error "Read error: %s\n" [ArgS (strerror P e)];;
    exit (-1)
  else
  out <- sys (Write tx_fd (firstn (Z.to_nat in_) buf));;
  if out <? 0 then
    e <- sys Errno;;
    pr_error "Write error: %s\n" [ArgS (strerror P e)];;
    exit (-1)
  else if out <? in_ then
    pr_error "Short write %zd < %zu\n" [ArgI out; ArgI in_];;
    exit (-1)
  else Ret (inl buf).

(** The relay loop with the shutdown that follows it. *)
Definition relay (o : opts) (rx_fd tx_fd : Z) (buf : list byte) : itree E void :=
  ITree.iter (relay_turn rx_fd tx_fd) buf;;
  sys (Close (if opt_write o then tx_fd else rx_fd));;
  exit 0.

(** [main]; [argv] includes [argv[0]], [buf] is the stack buffer as
    [main] finds it. *)
Definition main (argv : list string) (buf : list byte) : itree E void :=
  match parse_args (tl argv) opts0 with
  | None => usage
  | Some o =>
    match opt_dev o with
    | None => usage
    | Some dev =>
      if (opt_hwflow o && opt_noflow o) || (opt_read o && opt_write o)
      then usage
      else
        '(rx_fd, tx_fd) <-
          (if opt_write o then
             tx_fd <- device_open o dev (O_WRONLY P);;
             Ret (0, tx_fd)
           else
             rx_fd <- device_open o dev (O_RDONLY P);;
             Ret (rx_fd, 1));;
        relay o rx_fd tx_fd buf
    end
  end.

End Program.

(* ===================================================================== *)
(** * Running a program against an operating system *)
(* ===================================================================== *)

(** What a run leaves behind: every call with its answer, in order. *)
Inductive entry : Type :=
| LOpen (pathname : string) (flags ret : Z)
| LTcgetattr (fd ret : Z) (t : termios)
| LTcsetattr (fd optional_actions : Z) (t : termios) (ret : Z)
| LCfsetspeed (t : termios) (s ret : Z) (t' : termios)
| LTcflush (fd queue_selector ret : Z)
| LRead (fd count ret : Z) (d : list byte)
| LWrite (fd : Z) (data : list byte) (ret : Z)
| LClose (fd ret : Z)
| LErrno (e : Z)
| LPrint (f : stream) (fmt : string) (args : list arg).

(** The log entry of the call [c] answered with [x]. *)
Definition record_call {X} (c : sysE X) : X -> entry :=
  match c in sysE X return X -> entry with
  | Open p f => fun r => LOpen p f r
  | Tcgetattr fd => fun '(r, t) => LTcgetattr fd r t
  | Tcsetattr fd a t => fun r => LTcsetattr fd a t r
  | Cfsetspeed t s => fun '(r, t') => LCfsetspeed t s r t'
  | Tcflush fd q => fun r => LTcflush fd q r
  | Read fd n => fun '(r, d) => LRead fd n r d
  | Write fd d => fun r => LWrite fd d r
  | Close fd => fun r => LClose fd r
  | Errno => fun e => LErrno e
  end.

(** How a program ends. *)
Inductive outcome (R : Type) : Type :=
| Returned (r : R)
| Exited (status : Z).

Arguments Returned {R} r.
Arguments Exited {R} status.

(** An operating system: a state and an answer to every call. *)
Definition handler (W : Type) : Type := forall X, sysE X -> W -> W * X.

Section Run.

Context {W : Type} (os : handler W).

(** [run fuel t w] performs at most [fuel] steps of [t] from the state
    [w]; [None] means the fuel ran out.  Formatted output is recorded
    and leaves the state alone. *)
Fixpoint run {R} (fuel : nat) (t : itree E R) (w : W)
  : option (outcome R * W * list entry) :=
  match fuel with
  | O => None
  | S fuel =>
    match observe t with
    | RetF r => Some (Returned r, w, [])
    | TauF t' => run fuel t' w
    | VisF e k =>
      match e with
      | inl1 (Exit status) => Some (Exited status, w, [])
      | inr1 (inl1 pr) =>
        match pr in stdioE X return (X -> itree E R) -> _ with
        | Fprintf f fmt args => fun k =>
          match run fuel (k tt) w with
          | Some (o, w', tr) => Some (o, w', LPrint f fmt args :: tr)
          | None => None
          end
        end k
      | inr1 (inr1 c) =>
        let (w1, x) := os c w in
        match run fuel (k x) w1 with
        | Some (o, w', tr) => Some (o, w', record_call c x :: tr)
        | None => None
        end
      end
    end
  end.

(** [halts t w Q]: from the state [w] the program [t] ends, and the way
    it ends, the state it leaves and the calls it made satisfy [Q]. *)
Definition halts {R} (t : itree E R) (w : W)
    (Q : outcome R -> W -> list entry -> Prop) : Prop :=
  exists fuel o w' tr, run fuel t w = Some (o, w', tr) /\ Q o w' tr.

End Run.

(** Projections of a log. *)
Definition written (tx_fd : Z) (e : entry) : list (list byte) :=
  match e with
  | LWrite fd data _ => if fd =? tx_fd then [data] else []
  | _ => []
  end.

(** The data of the [write] calls on [tx_fd], call by call. *)
Definition writes (tx_fd : Z) (tr : list entry) : list (list byte) :=
  flat_map (written tx_fd) tr.

Definition is_cfsetspeed (e : entry) : bool :=
  match e with LCfsetspeed _ _ _ _ => true | _ => false end.

Definition is_tcsetattr (e : entry) : bool :=
  match e with LTcsetattr _ _ _ _ => true | _ => false end.

Definition is_tcflush (e : entry) : bool :=
  match e with LTcflush _ _ _ => true | _ => false end.

(** Turns of the relay loop that go round again: each reads [n > 0]
    bytes and writes at least as many.  [turns os rx tx w buf tr w' buf']
    leads from the top of the loop in state [w] with buffer [buf] to the
    top of the loop in [w'] with [buf'], making the calls [tr]. *)
Inductive turns {W : Type} (os : handler W) (rx_fd tx_fd : Z)
  : W -> list byte -> list entry -> W -> list byte -> Prop :=
| turns_nil (w : W) (buf : list byte) :
    turns os rx_fd tx_fd w buf [] w buf
| turns_cons (w w1 w2 w' : W) (buf buf' d : list byte) (n out : Z)
    (tr : list entry) :
    os _ (Read rx_fd BUF_SIZE) w = (w1, (n, d)) ->
    0 < n ->
    os _ (Write tx_fd (firstn (Z.to_nat n) (store buf d))) w1 = (w2, out) ->
    n <= out ->
    turns os rx_fd tx_fd w2 (store buf d) tr w' buf' ->
    turns os rx_fd tx_fd w buf
      (LRead rx_fd BUF_SIZE n d
       :: LWrite tx_fd (firstn (Z.to_nat n) (store buf d)) out :: tr)
      w' buf'.

(** Endpoints that behave as streams.  [holds w src snk]: in the state
    [w] the source behind [rx_fd] has the bytes [src] yet to yield and
    the sink behind [tx_fd] has received [snk].  A read delivers a
    prefix of what the source holds, not empty unless the source is, and
    no longer than asked for; a write is taken whole; a close changes
    neither end. *)
Record streams {W : Type} (os : handler W) (rx_fd tx_fd : Z)
    (holds : W -> list byte -> list byte -> Prop) : Prop := {
  streams_read :
    forall w src snk w1 n d,
      holds w src snk ->
      os _ (Read rx_fd BUF_SIZE) w = (w1, (n, d)) ->
      exists k : nat,
        n = Z.of_nat k /\ d = firstn k src
        /\ (k <= List.length src)%nat /\ (k <= Z.to_nat BUF_SIZE)%nat
        /\ (src <> [] -> (0 < k)%nat)
        /\ holds w1 (skipn k src) snk;
  streams_write :
    forall w src snk data w1 out,
      holds w src snk ->
      os _ (Write tx_fd data) w = (w1, out) ->
      out = Z.of_nat (List.length data) /\ holds w1 src (snk ++ data);
  streams_close :
    forall w src snk fd w1 r,
      holds w src snk ->
      os _ (Close fd) w = (w1, r) ->
      holds w1 src snk
}.

(** A formatted output with the format [fmt]. *)
Definition printed (fmt : string) (e : entry) : bool :=
  match e with LPrint _ f _ => (f =? fmt)%string | _ => false end.

(** A [cfsetspeed] call that asks for the speed symbol [s0]. *)
Definition sets_speed (s0 : Z) (e : entry) : bool :=
  match e with LCfsetspeed _ s _ _ => s =? s0 | _ => false end.

(** The last call of a run. *)
Definition final (tr : list entry) : option entry := hd_error (rev tr).

(** The attribute query found a terminal. *)
Definition tty_found (e : entry) : bool :=
  match e with LTcgetattr _ r _ => r =? 0 | _ => false end.

(** An attempt to apply attributes failed. *)
Definition set_failed (e : entry) : bool :=
  match e with LTcsetattr _ _ _ r => negb (r =? 0) | _ => false end.

(** The descriptors [open] returned, and those passed to [close]. *)
Definition opened (tr : list entry) : list Z :=
  flat_map (fun e => match e with LOpen _ _ fd => [fd] | _ => [] end) tr.

Definition closed (tr : list entry) : list Z :=
  flat_map (fun e => match e with LClose fd _ => [fd] | _ => [] end) tr.

(** What [device_open] and the relay loop may do to descriptors: open
    those that [fds] lists from the value returned, close none, and
    leave early only through [exit(-1)]. *)
Definition opens_only {W R : Type} (fds : R -> list Z)
  : outcome R -> W -> list entry -> Prop :=
  fun out _ tr =>
    closed tr = []
    /\ match out with
       | Returned r => opened tr = fds r
       | Exited s => s = -1
       end.

(** The process ends with a status the parent sees as non-zero. *)
Definition fatal {R} (o : outcome R) : Prop :=
  exists status, o = Exited status /\ wait_status status <> 0.

(** What [pr_debug] adds to the log. *)
Definition debug (o : opts) (fmt : string) (args : list arg) : list entry :=
  if opt_verbose o then [LPrint stdout fmt args] else [].

(** A configuration step of [device_open] after the attribute query. *)
Definition is_config (e : entry) : bool :=
  is_tcsetattr e || is_cfsetspeed e || is_tcflush e.

(* ===================================================================== *)
(** * A concrete platform: Linux with glibc *)
(* ===================================================================== *)

(** The values of <asm-generic/termbits.h>: sixteen classic speeds
    numbered from 0, the extended ones from [CBAUDEX | 1]. *)
Definition linux_code (b : baud) : Z :=
  match b with
  | B0 => 0 | B50 => 1 | B75 => 2 | B110 => 3 | B134 => 4 | B150 => 5
  | B200 => 6 | B300 => 7 | B600 => 8 | B1200 => 9 | B1800 => 10
  | B2400 => 11 | B4800 => 12 | B9600 => 13 | B19200 => 14 | B38400 => 15
  | B57600 => 4097 | B115200 => 4098 | B230400 => 4099 | B460800 => 4100
  | B500000 => 4101 | B576000 => 4102 | B921600 => 4103
  | B1000000 => 4104 | B1152000 => 4105 | B1500000 => 4106
  | B2000000 => 4107 | B2500000 => 4108 | B3000000 => 4109
  | B3500000 => 4110 | B4000000 => 4111
  end.

Fixpoint upd (n : nat) (v : Z) (l : list Z) : list Z :=
  match l, n with
  | [], _ => []
  | _ :: l', O => v :: l'
  | x :: l', S n' => x :: upd n' v l'
  end.

(** [cfmakeraw] as termios(3) gives it, with the flag values of Linux. *)
Definition linux_cfmakeraw (t : termios) : termios :=
  {| c_iflag := Z.ldiff (c_iflag t) 1515;
     c_oflag := Z.ldiff (c_oflag t) 1;
     c_cflag := Z.lor (Z.ldiff (c_cflag t) 304) 48;
     c_lflag := Z.ldiff (c_lflag t) 32843;
     c_line := c_line t;
     c_cc := upd 5 0 (upd 6 1 (c_cc t));
     c_ispeed := c_ispeed t;
     c_ospeed := c_ospeed t |}.

Definition is_space (c : ascii) : bool :=
  let n := Z.of_nat (nat_of_ascii c) in
  (n =? 32) || ((9 <=? n) && (n <=? 13)).

Definition digit_val (c : ascii) : Z :=
  let n := Z.of_nat (nat_of_ascii c) in
  if (48 <=? n) && (n <=? 57) then n - 48
  else if (97 <=? n) && (n <=? 122) then n - 87
  else if (65 <=? n) && (n <=? 90) then n - 55
  else 36.

Fixpoint skip_space (s : string) : string :=
  match s with
  | String c s' => if is_space c then skip_space s' else s
  | EmptyString => s
  end.

Fixpoint digits (base : Z) (s : string) (acc : Z) : Z :=
  match s with
  | String c s' =>
    if digit_val c <? base then digits base s' (acc * base + digit_val c)
    else acc
  | EmptyString => acc
  end.

Definition ULONG_MAX : Z := 18446744073709551615.

(** [strtoul(s, NULL, 0)] of ISO C with a 64-bit [unsigned long]. *)
Definition linux_strtoul0 (s : string) : Z :=
  let s := skip_space s in
  let '(neg, s) :=
    match s with
    | String "-" s' => (true, s')
    | String "+" s' => (false, s')
    | _ => (false, s)
    end in
  let v :=
    match s with
    | String "0" (String x (String d rest)) =>
      if ((x =? "x")%char || (x =? "X")%char) && (digit_val d <? 16)
      then digits 16 (String d rest) 0
      else digits 8 s 0
    | String "0" _ => digits 8 s 0
    | _ => digits 10 s 0
    end in
  if ULONG_MAX <? v then ULONG_MAX
  else if neg then (- v) mod (ULONG_MAX + 1) else v.

Definition linux : platform :=
  {| code := linux_code;
     defined := fun _ => true;
     O_RDONLY := 0;
     O_WRONLY := 1;
     TCSANOW := 0;
     TCIOFLUSH := 2;
     CRTSCTS := 2147483648;
     ENOTTY := 25;
     cfmakeraw := linux_cfmakeraw;
     cfgetispeed := c_ispeed;
     cfgetospeed := c_ospeed;
     strerror := fun e => if e =? 25 then "Inappropriate ioctl for device"
                          else "Input/output error";
     strtoul0 := linux_strtoul0;
     getprogname := "sercat" |}.

(* ===================================================================== *)
(** * A concrete operating system: one device, one source, one sink *)
(* ===================================================================== *)

Record sim : Type := {
  sim_tty : bool;            (* the device is a terminal *)
  sim_attr : termios;        (* its line settings *)
  sim_rx : Z;                (* descriptor of the source endpoint *)
  sim_tx : Z;                (* descriptor of the sink endpoint *)
  sim_src : list byte;       (* what the source has yet to yield *)
  sim_chunks : list nat;     (* the next reads yield at most one more than these *)
  sim_room : option nat;     (* what one write takes at most *)
  sim_sink : list byte;      (* what the sink has received *)
  sim_closed : list Z;       (* descriptors closed so far *)
  sim_errno : Z
}.

Definition sim_fail (w : sim) (e : Z) : sim :=
  {| sim_tty := sim_tty w; sim_attr := sim_attr w; sim_rx := sim_rx w;
     sim_tx := sim_tx w; sim_src := sim_src w; sim_chunks := sim_chunks w;
     sim_room := sim_room w; sim_sink := sim_sink w;
     sim_closed := sim_closed w; sim_errno := e |}.

Definition sim_set_attr (w : sim) (t : termios) : sim :=
  {| sim_tty := sim_tty w; sim_attr := t; sim_rx := sim_rx w;
     sim_tx := sim_tx w; sim_src := sim_src w; sim_chunks := sim_chunks w;
     sim_room := sim_room w; sim_sink := sim_sink w;
     sim_closed := sim_closed w; sim_errno := sim_errno w |}.

Definition sim_take (w : sim) (k : nat) : sim :=
  {| sim_tty := sim_tty w; sim_attr := sim_attr w; sim_rx := sim_rx w;
     sim_tx := sim_tx w; sim_src := skipn k (sim_src w);
     sim_chunks := tl (sim_chunks w);
     sim_room := sim_room w; sim_sink := sim_sink w;
     sim_closed := sim_closed w; sim_errno := sim_errno w |}.

Definition sim_put (w : sim) (d : list byte) : sim :=
  {| sim_tty := sim_tty w; sim_attr := sim_attr w; sim_rx := sim_rx w;
     sim_tx := sim_tx w; sim_src := sim_src w; sim_chunks := sim_chunks w;
     sim_room := sim_room w; sim_sink := sim_sink w ++ d;
     sim_closed := sim_closed w; sim_errno := sim_errno w |}.

Definition sim_close (w : sim) (fd : Z) : sim :=
  {| sim_tty := sim_tty w; sim_attr := sim_attr w; sim_rx := sim_rx w;
     sim_tx := sim_tx w; sim_src := sim_src w; sim_chunks := sim_chunks w;
     sim_room := sim_room w; sim_sink := sim_sink w;
     sim_closed := fd :: sim_closed w; sim_errno := sim_errno w |}.

(** How many bytes the next [read] of [count] bytes delivers: at least
    one while the source holds some, never more than asked for. *)
Definition sim_chunk (w : sim) (count : Z) : nat :=
  let avail := List.length (sim_src w) in
  let lim := match sim_chunks w with [] => avail | c :: _ => S c end in
  Nat.min (Nat.min (Z.to_nat count) avail) lim.

Definition set_speeds (t : termios) (s : Z) : termios :=
  {| c_iflag := c_iflag t; c_oflag := c_oflag t; c_cflag := c_cflag t;
     c_lflag := c_lflag t; c_line := c_line t; c_cc := c_cc t;
     c_ispeed := s; c_ospeed := s |}.

Definition EBADF : Z := 9.

(** The device is descriptor 3.  A non-terminal refuses the terminal
    calls with [ENOTTY]; the source yields its bytes and then 0; the
    sink takes what it has room for. *)
Definition sim_os : handler sim :=
  fun X c =>
    match c in sysE X return sim -> sim * X with
    | Open _ _ => fun w => (w, 3)
    | Tcgetattr _ => fun w =>
      if sim_tty w then (w, (0, sim_attr w))
      else (sim_fail w (ENOTTY linux), (-1, sim_attr w))
    | Tcsetattr _ _ t => fun w =>
      if sim_tty w then (sim_set_attr w t, 0)
      else (sim_fail w (ENOTTY linux), -1)
    | Cfsetspeed t s => fun w => (w, (0, set_speeds t s))
    | Tcflush _ _ => fun w =>
      if sim_tty w then (w, 0) else (sim_fail w (ENOTTY linux), -1)
    | Read fd count => fun w =>
      if fd =? sim_rx w then
        let k := sim_chunk w count in
        (sim_take w k, (Z.of_nat k, firstn k (sim_src w)))
      else (sim_fail w EBADF, (-1, []))
    | Write fd data => fun w =>
      if fd =? sim_tx w then
        let k := match sim_room w with
                 | None => List.length data
                 | Some r => Nat.min r (List.length data)
                 end in
        (sim_put w (firstn k data), Z.of_nat k)
      else (sim_fail w EBADF, -1)
    | Close fd => fun w => (sim_close w fd, 0)
    | Errno => fun w => (w, sim_errno w)
    end.

(** The simulated system as a pair of streams. *)
Definition sim_holds (rx_fd tx_fd : Z) (w : sim) (src snk : list byte) : Prop :=
  sim_rx w = rx_fd /\ sim_tx w = tx_fd /\ sim_room w = None
  /\ sim_src w = src /\ sim_sink w = snk.

Definition raw0 : termios :=
  {| c_iflag := 1280; c_oflag := 5; c_cflag := 191; c_lflag := 35387;
     c_line := 0; c_cc := repeat 0 32; c_ispeed := 15; c_ospeed := 15 |}.

(** A regular file holding [data], read by [sercat file]. *)
Definition file_world (data : list byte) (chunks : list nat) : sim :=
  {| sim_tty := false; sim_attr := raw0; sim_rx := 3; sim_tx := 1;
     sim_src := data; sim_chunks := chunks; sim_room := None;
     sim_sink := []; sim_closed := []; sim_errno := 0 |}.

(** A terminal that [sercat -w tty] writes standard input to. *)
Definition tty_world (data : list byte) (room : option nat) : sim :=
  {| sim_tty := true; sim_attr := raw0; sim_rx := 0; sim_tx := 3;
     sim_src := data; sim_chunks := []; sim_room := room;
     sim_sink := []; sim_closed := []; sim_errno := 0 |}.

Definition hello : list byte :=
  [Byte.x68; Byte.x65; Byte.x6c; Byte.x6c; Byte.x6f; Byte.x0a].

(* ===================================================================== *)
(** * Vocabulary for further properties *)
(* ===================================================================== *)

(** The rate that each row of [speeds] pairs with a macro. *)
Definition bps (b : baud) : Z :=
  match b with
  | B0 => 0 | B50 => 50 | B75 => 75 | B110 => 110 | B134 => 134
  | B150 => 150 | B200 => 200 | B300 => 300 | B600 => 600 | B1200 => 1200
  | B1800 => 1800 | B2400 => 2400 | B4800 => 4800 | B9600 => 9600
  | B19200 => 19200 | B38400 => 38400 | B57600 => 57600
  | B115200 => 115200 | B230400 => 230400 | B460800 => 460800
  | B500000 => 500000 | B576000 => 576000 | B921600 => 921600
  | B1000000 => 1000000 | B1152000 => 1152000 | B1500000 => 1500000
  | B2000000 => 2000000 | B2500000 => 2500000 | B3000000 => 3000000
  | B3500000 => 3500000 | B4000000 => 4000000
  end.

(** The rows of [speeds] that stand outside any [#ifdef]. *)
Definition unconditional (b : baud) : bool :=
  match b with
  | B0 | B50 | B75 | B110 | B134 | B150 | B200 | B300 | B600 | B1200
  | B1800 | B2400 | B4800 | B9600 | B19200 | B38400 => true
  | _ => false
  end.

(** Whether the row of [b] is compiled into the table. *)
Definition compiled (P : platform) (b : baud) : bool :=
  unconditional b || defined P b.

(** The option strings that only set a flag. *)
Definition flag_options : list string :=
  ["-f"; "--hwflow"; "-n"; "--noflow"; "-r"; "--read"; "-w"; "--write";
   "-v"; "--verbose"].

(** Every string the option loop compares [argv[1]] with. *)
Definition option_strings : list string :=
  ["-h"; "--help"; "-s"; "--speed"] ++ flag_options.

(** [termios.c_cflag] as the flow-control step of [device_open] leaves
    it: [|= CRTSCTS] under [opt_hwflow], else [&= ~CRTSCTS] under
    [opt_noflow], else untouched. *)
Definition flow_control (P : platform) (o : opts) (t : termios) : termios :=
  if opt_hwflow o then set_c_cflag t (Z.lor (c_cflag t) (CRTSCTS P))
  else if opt_noflow o
       then set_c_cflag t (Z.land (c_cflag t) (to_uint (Z.lnot (CRTSCTS P))))
       else t.

(** The calls of a log, without the formatted output. *)
Definition is_print (e : entry) : bool :=
  match e with LPrint _ _ _ => true | _ => false end.

Definition syscalls (tr : list entry) : list entry :=
  filter (fun e => negb (is_print e)) tr.

(** An output on [stderr]. *)
Definition on_stderr (e : entry) : bool :=
  match e with LPrint stderr _ _ => true | _ => false end.

(** What [device_open] may do with the descriptor [fd0] that [open]
    gave it for [path]: query, set at once, flush both queues, look at
    [errno], print. *)
Definition device_call (P : platform) (path : string) (flags fd0 : Z)
    (e : entry) : bool :=
  match e with
  | LOpen p f r => (p =? path)%string && (f =? flags) && (r =? fd0)
  | LTcgetattr fd _ _ => fd =? fd0
  | LTcsetattr fd a _ _ => (fd =? fd0) && (a =? TCSANOW P)
  | LCfsetspeed _ _ _ _ => true
  | LTcflush fd q _ => (fd =? fd0) && (q =? TCIOFLUSH P)
  | LRead _ _ _ _ | LWrite _ _ _ | LClose _ _ => false
  | LErrno _ => true
  | LPrint _ _ _ => true
  end.

(** An operating system with a broken device: [open] fails with
    [EIO], and so would every other call. *)
Definition EIO : Z := 5.

Definition broken_device : handler unit :=
  fun X c =>
    match c in sysE X return unit -> unit * X with
    | Open _ _ => fun w => (w, -1)
    | Tcgetattr _ => fun w => (w, (-1, raw0))
    | Tcsetattr _ _ _ => fun w => (w, -1)
    | Cfsetspeed t _ => fun w => (w, (-1, t))
    | Tcflush _ _ => fun w => (w, -1)
    | Read _ _ => fun w => (w, (-1, []))
    | Write _ _ => fun w => (w, -1)
    | Close _ => fun w => (w, -1)
    | Errno => fun w => (w, EIO)
    end.

(** The turn of the relay loop that does not go round again, from the
    top of the loop in state [w] with buffer [buf]: the [break] at end
    of input, or one of the three fatal errors. *)
Inductive last_turn {W : Type} (os : handler W) (P : platform)
    (rx_fd tx_fd : Z) (w : W) (buf : list byte)
  : list entry -> outcome unit -> W -> Prop :=
| end_of_input (w1 : W) (d : list byte) :
    os _ (Read rx_fd BUF_SIZE) w = (w1, (0, d)) ->
    last_turn os P rx_fd tx_fd w buf
      [LRead rx_fd BUF_SIZE 0 d] (Returned tt) w1
| read_error (w1 w2 : W) (n e : Z) (d : list byte) :
    os _ (Read rx_fd BUF_SIZE) w = (w1, (n, d)) ->
    n < 0 ->
    os _ Errno w1 = (w2, e) ->
    last_turn os P rx_fd tx_fd w buf
      [LRead rx_fd BUF_SIZE n d; LErrno e;
       LPrint stderr (ESC_RED ++ "Read error: %s\n" ++ ESC_RM)
         [ArgS (strerror P e)]]
      (Exited (-1)) w2
| write_error (w1 w2 w3 : W) (n out e : Z) (d : list byte) :
    os _ (Read rx_fd BUF_SIZE) w = (w1, (n, d)) ->
    0 < n ->
    os _ (Write tx_fd (firstn (Z.to_nat n) (store buf d))) w1 = (w2, out) ->
    out < 0 ->
    os _ Errno w2 = (w3, e) ->
    last_turn os P rx_fd tx_fd w buf
      [LRead rx_fd BUF_SIZE n d;
       LWrite tx_fd (firstn (Z.to_nat n) (store buf d)) out; LErrno e;
       LPrint stderr (ESC_RED ++ "Write error: %s\n" ++ ESC_RM)
         [ArgS (strerror P e)]]
      (Exited (-1)) w3
| short_write (w1 w2 : W) (n out : Z) (d : list byte) :
    os _ (Read rx_fd BUF_SIZE) w = (w1, (n, d)) ->
    0 < n ->
    os _ (Write tx_fd (firstn (Z.to_nat n) (store buf d))) w1 = (w2, out) ->
    0 <= out < n ->
    last_turn os P rx_fd tx_fd w buf
      [LRead rx_fd BUF_SIZE n d;
       LWrite tx_fd (firstn (Z.to_nat n) (store buf d)) out;
       LPrint stderr (ESC_RED ++ "Short write %zd < %zu\n" ++ ESC_RM)
         [ArgI out; ArgI n]]
      (Exited (-1)) w2.

(** The data of the [read] calls on [rx_fd] that delivered something,
    call by call. *)
Definition delivered (rx_fd : Z) (e : entry) : list (list byte) :=
  match e with
  | LRead fd _ n d => if (fd =? rx_fd) && (0 <? n) then [d] else []
  | _ => []
  end.

Definition reads (rx_fd : Z) (tr : list entry) : list (list byte) :=
  flat_map (delivered rx_fd) tr.

(** The tests of the option loop on [argv[1]]. *)
Definition is_hwflow (a : string) : bool :=
  (a =? "-f")%string || (a =? "--hwflow")%string.

Definition is_noflow (a : string) : bool :=
  (a =? "-n")%string || (a =? "--noflow")%string.

Definition is_read (a : string) : bool :=
  (a =? "-r")%string || (a =? "--read")%string.

Definition is_write (a : string) : bool :=
  (a =? "-w")%string || (a =? "--write")%string.

Definition is_speed (a : string) : bool :=
  (a =? "-s")%string || (a =? "--speed")%string.


(** Two options that the check after the loop does not accept
    together. *)
Definition clash (a b : string) : bool :=
  (is_hwflow a && is_noflow b) || (is_noflow a && is_hwflow b)
  || (is_read a && is_write b) || (is_write a && is_read b).

(** Command lines that name no device: flags, and speed options with
    or without their value. *)
Inductive lacks_device : list string -> Prop :=
| lacks_nil : lacks_device []
| lacks_flag (a : string) (l : list string) :
    In a flag_options -> lacks_device l -> lacks_device (a :: l)
| lacks_speed (a v : string) (l : list string) :
    is_speed a = true -> lacks_device l -> lacks_device (a :: v :: l)
| lacks_value (a : string) :
    is_speed a = true -> lacks_device [a].

(** What [main] may do when the options are [o], the device is [dev]
    and [open] answered [fd]: open [dev] in the direction of the mode,
    read [BUF_SIZE] bytes at a time from the device or from standard
    input, write to standard output or to the device, and close the
    device. *)
Definition in_direction (P : platform) (o : opts) (dev : string) (fd : Z)
    (e : entry) : Prop :=
  match e with
  | LOpen p f r =>
    p = dev /\ f = (if opt_write o then O_WRONLY P else O_RDONLY P) /\ r = fd
  | LRead rfd n _ _ => rfd = (if opt_write o then 0 else fd) /\ n = BUF_SIZE
  | LWrite wfd _ _ => wfd = (if opt_write o then fd else 1)
  | LClose cfd _ => cfd = fd
  | LTcgetattr tfd _ _ | LTcsetattr tfd _ _ _ | LTcflush tfd _ _ => tfd = fd
  | LCfsetspeed _ _ _ _ | LErrno _ | LPrint _ _ _ => True
  end.

(** An output on [stdout]. *)
Definition on_stdout (e : entry) : bool :=
  match e with LPrint stdout _ _ => true | _ => false end.

(** A log without what went to [stdout]. *)
Definition but_stdout (tr : list entry) : list entry :=
  filter (fun e => negb (on_stdout e)) tr.

(** What the option loop never undoes: a flag that is set, a device
    that is named. *)
Definition keeps (o o' : opts) : Prop :=
  (opt_hwflow o = true -> opt_hwflow o' = true)
  /\ (opt_noflow o = true -> opt_noflow o' = true)
  /\ (opt_read o = true -> opt_read o' = true)
  /\ (opt_write o = true -> opt_write o' = true)
  /\ (opt_verbose o = true -> opt_verbose o' = true)
  /\ (forall d, opt_dev o = Some d -> opt_dev o' = Some d).

(** The command line is turned down: the usage text on [stderr],
    [exit(1)], and no call to the operating system. *)
Definition turned_down {W R : Type} (P : platform) (w : W)
  : outcome R -> W -> list entry -> Prop :=
  fun out w' tr =>
    out = Exited 1 /\ w' = w
    /\ tr = [LPrint stderr usage_text [ArgS (getprogname P)]].

(** Options that differ at most in [opt_verbose]. *)
Definition same_but_verbose (o o' : opts) : Prop :=
  opt_dev o = opt_dev o' /\ opt_speed o = opt_speed o'
  /\ opt_read o = opt_read o' /\ opt_write o = opt_write o'
  /\ opt_hwflow o = opt_hwflow o' /\ opt_noflow o = opt_noflow o'.

(** The outcomes of two option loops agree up to [opt_verbose]. *)
Definition parsed_alike (r r' : option opts) : Prop :=
  match r, r' with
  | Some o, Some o' => same_but_verbose o o'
  | None, None => True
  | _, _ => False
  end.

(** Options that differ at most in [opt_read]. *)
Definition same_but_read (o o' : opts) : Prop :=
  opt_dev o = opt_dev o' /\ opt_speed o = opt_speed o'
  /\ opt_write o = opt_write o' /\ opt_hwflow o = opt_hwflow o'
  /\ opt_noflow o = opt_noflow o' /\ opt_verbose o = opt_verbose o'.

(* ===================================================================== *)
(** * Facts about [run] *)
(* ===================================================================== *)

Section RunFacts.

Context {W : Type} (os : handler W).

(** [run] cannot tell apart trees that are equal step by step. *)
Lemma run_eq_itree {R} (fuel : nat) :
  forall (t1 t2 : itree E R) (w : W), t1 ≅ t2 -> run os fuel t1 w = run os fuel t2 w.
Proof.
  induction fuel as [|fuel IH]; intros t1 t2 w H; [reflexivity|].
  apply eqit_inv in H. cbn [run]. unfold observe.
  destruct (_observe t1) as [r1|u1|X1 e1 k1], (_observe t2) as [r2|u2|X2 e2 k2];
    cbn in H; try contradiction; try discriminate.
  - subst. reflexivity.
  - apply IH, H.
  - destruct H as [p [He Hk]]. destruct p. cbn in He, Hk. subst e2.
    destruct e1 as [[s]|[pr|c]].
    + reflexivity.
    + destruct pr. rewrite (IH _ _ w (Hk tt)). reflexivity.
    + destruct (os c w) as [w1 x]. rewrite (IH _ _ w1 (Hk x)). reflexivity.
Qed.

Lemma run_mono {R} (fuel : nat) :
  forall (t : itree E R) (w : W) res fuel',
    run os fuel t w = Some res -> (fuel <= fuel')%nat -> run os fuel' t w = Some res.
Proof.
  induction fuel as [|fuel IH]; intros t w res fuel' H Hle; [discriminate|].
  destruct fuel' as [|fuel']; [lia|]. cbn [run] in *.
  destruct (observe t) as [r|u|X e k]; auto.
  - apply IH; [exact H | lia].
  - destruct e as [[s]|[pr|c]]; auto.
    + destruct pr.
      destruct (run os fuel (k tt) w) as [[[o w'] tr]|] eqn:Hr; [|discriminate].
      rewrite (IH _ _ _ fuel' Hr) by lia. exact H.
    + destruct (os c w) as [w1 x].
      destruct (run os fuel (k x) w1) as [[[o w'] tr]|] eqn:Hr; [|discriminate].
      rewrite (IH _ _ _ fuel' Hr) by lia. exact H.
Qed.

Lemma run_det {R} (t : itree E R) (w : W) f1 f2 r1 r2 :
  run os f1 t w = Some r1 -> run os f2 t w = Some r2 -> r1 = r2.
Proof.
  intros H1 H2.
  apply run_mono with (fuel' := Nat.max f1 f2) in H1; [|lia].
  apply run_mono with (fuel' := Nat.max f1 f2) in H2; [|lia].
  congruence.
Qed.

Lemma run_observe {R} (fuel : nat) (t1 t2 : itree E R) (w : W) :
  observe t1 = observe t2 -> run os fuel t1 w = run os fuel t2 w.
Proof. intros H. destruct fuel; cbn [run]; [|rewrite H]; reflexivity. Qed.

Lemma run_S {R} (fuel : nat) (t : itree E R) (w : W) :
  run os (S fuel) t w =
  match observe t with
  | RetF r => Some (Returned r, w, [])
  | TauF t' => run os fuel t' w
  | VisF e k =>
    match e with
    | inl1 (Exit status) => Some (Exited status, w, [])
    | inr1 (inl1 pr) =>
      match pr in stdioE X return (X -> itree E R) -> _ with
      | Fprintf f fmt args => fun k =>
        match run os fuel (k tt) w with
        | Some (o, w', tr) => Some (o, w', LPrint f fmt args :: tr)
        | None => None
        end
      end k
    | inr1 (inr1 c) =>
      let (w1, x) := os c w in
      match run os fuel (k x) w1 with
      | Some (o, w', tr) => Some (o, w', record_call c x :: tr)
      | None => None
      end
    end
  end.
Proof. reflexivity. Qed.

Lemma run_bind {R T} (k : R -> itree E T) (f1 : nat) :
  forall (t : itree E R) (w : W) r w1 tr1 f2 o w2 tr2,
    run os f1 t w = Some (Returned r, w1, tr1) ->
    run os f2 (k r) w1 = Some (o, w2, tr2) ->
    run os (f1 + f2) (ITree.bind t k) w = Some (o, w2, tr1 ++ tr2).
Proof.
  induction f1 as [|f1 IH]; intros t w r w1 tr1 f2 o w2 tr2 H1 H2;
    [discriminate|].
  rewrite run_S in H1.
  change (S f1 + f2)%nat with (S (f1 + f2)).
  destruct (observe t) as [r0|u|X e h] eqn:Ht.
  - inversion H1; subst. cbn [app].
    rewrite (@run_observe _ _ (ITree.bind t k) (k r)).
    + eapply run_mono; [exact H2 | lia].
    + rewrite observe_bind, Ht. reflexivity.
  - rewrite run_S, observe_bind, Ht. cbn.
    apply (IH _ _ _ _ _ _ _ _ _ H1 H2).
  - rewrite run_S, observe_bind, Ht. cbn. clear Ht.
    destruct e as [[s]|[pr|c]]; [discriminate| |].
    + destruct pr.
      destruct (run os f1 (h tt) w) as [[[o1 w'] tr]|] eqn:Hr; [|discriminate].
      inversion H1; subst.
      rewrite (IH _ _ _ _ _ _ _ _ _ Hr H2). reflexivity.
    + destruct (os c w) as [w0 x].
      destruct (run os f1 (h x) w0) as [[[o1 w'] tr]|] eqn:Hr; [|discriminate].
      inversion H1; subst.
      rewrite (IH _ _ _ _ _ _ _ _ _ Hr H2). reflexivity.
Qed.

Lemma run_bind_exit {R T} (k : R -> itree E T) (fuel : nat) :
  forall (t : itree E R) (w : W) s w1 tr,
    run os fuel t w = Some (Exited s, w1, tr) ->
    run os fuel (ITree.bind t k) w = Some (Exited s, w1, tr).
Proof.
  induction fuel as [|fuel IH]; intros t w s w1 tr H; [discriminate|].
  rewrite run_S in H. rewrite run_S, observe_bind.
  destruct (observe t) as [r0|u|X e h]; cbn in H |- *.
  - discriminate.
  - apply IH, H.
  - destruct e as [[s0]|[pr|c]].
    + inversion H; subst. reflexivity.
    + destruct pr.
      destruct (run os fuel (h tt) w) as [[[o1 w'] tr']|] eqn:Hr; [|discriminate].
      inversion H; subst. rewrite (IH _ _ _ _ _ Hr). reflexivity.
    + destruct (os c w) as [w0 x].
      destruct (run os fuel (h x) w0) as [[[o1 w'] tr']|] eqn:Hr; [|discriminate].
      inversion H; subst. rewrite (IH _ _ _ _ _ Hr). reflexivity.
Qed.

(** Conversely, a run of [t >>= k] splits into a run of [t] and, when
    [t] returns, a run of [k]. *)
Lemma run_bind_inv {R T} (k : R -> itree E T) (fuel : nat) :
  forall (t : itree E R) (w : W) o w2 tr,
    run os fuel (ITree.bind t k) w = Some (o, w2, tr) ->
    (exists s, o = Exited s /\ run os fuel t w = Some (Exited s, w2, tr))
    \/ (exists r w1 tr1 tr2,
          run os fuel t w = Some (Returned r, w1, tr1)
          /\ run os fuel (k r) w1 = Some (o, w2, tr2)
          /\ tr = tr1 ++ tr2).
Proof.
  induction fuel as [|fuel IH]; intros t w o w2 tr H; [discriminate|].
  rewrite run_S, observe_bind in H. rewrite (run_S fuel t w).
  destruct (observe t) as [r0|u|X e h]; cbn in H.
  - right. exists r0, w, [], tr. repeat split. exact H.
  - destruct (IH _ _ _ _ _ H) as [[s [-> Hs]]|[r [w1 [tr1 [tr2 [Ht1 [Hk ->]]]]]]].
    + left. exists s. split; [reflexivity|exact Hs].
    + right. exists r, w1, tr1, tr2.
      repeat split; auto. eapply run_mono; [exact Hk | lia].
  - destruct e as [[s0]|[pr|c]].
    + inversion H; subst. left. exists s0. auto.
    + destruct pr.
      destruct (run os fuel (ITree.bind (h tt) k) w) as [[[o1 w'] tr']|] eqn:Hr;
        [|discriminate].
      inversion H; subst.
      destruct (IH _ _ _ _ _ Hr) as [[s [-> Hs]]|[r [w1 [tr1 [tr2 [Ht1 [Hk ->]]]]]]].
      * left. exists s. split; [reflexivity|]. rewrite Hs. reflexivity.
      * right. exists r, w1, (LPrint f fmt args :: tr1), tr2.
        rewrite Ht1. repeat split; auto. eapply run_mono; [exact Hk | lia].
    + destruct (os c w) as [w0 x] eqn:Hos.
      destruct (run os fuel (ITree.bind (h x) k) w0) as [[[o1 w'] tr']|] eqn:Hr;
        [|discriminate].
      inversion H; subst.
      destruct (IH _ _ _ _ _ Hr) as [[s [-> Hs]]|[r [w1 [tr1 [tr2 [Ht1 [Hk ->]]]]]]].
      * left. exists s. split; [reflexivity|]. rewrite Hs. reflexivity.
      * right. exists r, w1, (record_call c x :: tr1), tr2.
        rewrite Ht1. repeat split; auto. eapply run_mono; [exact Hk | lia].
Qed.

End RunFacts.

Section Halts.

Context {W : Type} (os : handler W).

Lemma halts_run {R} (t : itree E R) (w : W) Q fuel o w' tr :
  halts os t w Q -> run os fuel t w = Some (o, w', tr) -> Q o w' tr.
Proof.
  intros (f & o0 & w0 & tr0 & Hr & HQ) H.
  pose proof (run_det _ _ _ _ _ Hr H) as Heq. inversion Heq; subst. exact HQ.
Qed.

Lemma halts_weaken {R} (t : itree E R) (w : W) (Q Q' : _ -> _ -> _ -> Prop) :
  halts os t w Q -> (forall o w' tr, Q o w' tr -> Q' o w' tr) -> halts os t w Q'.
Proof. intros (f & o & w' & tr & Hr & HQ) H. exists f, o, w', tr. auto. Qed.

Lemma halts_eq_itree {R} (t1 t2 : itree E R) (w : W) Q :
  t1 ≅ t2 -> halts os t2 w Q -> halts os t1 w Q.
Proof.
  intros Heq (f & o & w' & tr & Hr & HQ). exists f, o, w', tr.
  rewrite (run_eq_itree os f w Heq). auto.
Qed.

Lemma halts_ret {R} (r : R) (w : W) (Q : _ -> _ -> _ -> Prop) :
  Q (Returned r) w [] -> halts os (Ret r) w Q.
Proof. intros H. exists 1%nat, (Returned r), w, []. auto. Qed.

Lemma halts_exit {R} (s : Z) (w : W) (Q : outcome R -> _ -> _ -> Prop) :
  Q (Exited s) w [] -> halts os (exit s) w Q.
Proof. intros H. exists 1%nat, (Exited s), w, []. auto. Qed.

Lemma halts_tau {R} (t : itree E R) (w : W) Q :
  halts os t w Q -> halts os (Tau t) w Q.
Proof.
  intros (f & o & w' & tr & Hr & HQ). exists (S f), o, w', tr. auto.
Qed.

Lemma halts_bind {R T} (t : itree E R) (k : R -> itree E T) (w : W)
    (Q : outcome T -> W -> list entry -> Prop) :
  halts os t w (fun o w1 tr1 =>
    match o with
    | Returned r => halts os (k r) w1 (fun o' w2 tr2 => Q o' w2 (tr1 ++ tr2))
    | Exited s => Q (Exited s) w1 tr1
    end) ->
  halts os (ITree.bind t k) w Q.
Proof.
  intros (f & o & w1 & tr1 & Hr & HQ). destruct o as [r|s].
  - destruct HQ as (f2 & o' & w2 & tr2 & Hk & HQ).
    exists (f + f2)%nat, o', w2, (tr1 ++ tr2).
    split; [|exact HQ]. eapply run_bind; eauto.
  - exists f, (Exited s), w1, tr1. split; [|exact HQ].
    apply run_bind_exit, Hr.
Qed.

Lemma halts_exit_bind {R T} (s : Z) (k : R -> itree E T) (w : W)
    (Q : outcome T -> _ -> _ -> Prop) :
  Q (Exited s) w [] -> halts os (ITree.bind (exit s) k) w Q.
Proof. intros H. apply halts_bind, halts_exit, H. Qed.

Lemma halts_ret_bind {R T} (r : R) (k : R -> itree E T) (w : W) Q :
  halts os (k r) w Q -> halts os (ITree.bind (Ret r) k) w Q.
Proof. apply halts_eq_itree, bind_ret_l. Qed.

Lemma halts_bind_bind {R S T} (t : itree E R) (k : R -> itree E S)
    (h : S -> itree E T) (w : W) Q :
  halts os (ITree.bind t (fun r => ITree.bind (k r) h)) w Q ->
  halts os (ITree.bind (ITree.bind t k) h) w Q.
Proof. apply halts_eq_itree, bind_bind. Qed.

Lemma halts_sys {X} (c : sysE X) (w : W) (Q : _ -> _ -> _ -> Prop) :
  (forall w1 x, os c w = (w1, x) -> Q (Returned x) w1 [record_call c x]) ->
  halts os (sys c) w Q.
Proof.
  intros H. destruct (os c w) as [w1 x] eqn:Hos.
  exists 2%nat, (Returned x), w1, [record_call c x]. split; [|auto].
  unfold sys. rewrite run_S. cbn. rewrite Hos. reflexivity.
Qed.

Lemma halts_sys_bind {X T} (c : sysE X) (k : X -> itree E T) (w : W)
    (Q : _ -> _ -> _ -> Prop) :
  (forall w1 x, os c w = (w1, x) ->
     halts os (k x) w1 (fun o w' tr => Q o w' (record_call c x :: tr))) ->
  halts os (ITree.bind (sys c) k) w Q.
Proof.
  intros H. apply halts_bind, halts_sys. intros w1 x Hos. apply (H w1 x Hos).
Qed.

Lemma halts_fprintf f fmt args (w : W) (Q : _ -> _ -> _ -> Prop) :
  Q (Returned tt) w [LPrint f fmt args] -> halts os (fprintf f fmt args) w Q.
Proof.
  intros H. exists 2%nat, (Returned tt), w, [LPrint f fmt args]. auto.
Qed.

Lemma halts_fprintf_bind {T} f fmt args (k : unit -> itree E T) (w : W)
    (Q : _ -> _ -> _ -> Prop) :
  halts os (k tt) w (fun o w' tr => Q o w' (LPrint f fmt args :: tr)) ->
  halts os (ITree.bind (fprintf f fmt args) k) w Q.
Proof. intros H. apply halts_bind, halts_fprintf. exact H. Qed.

End Halts.

Arguments halts_run {W os R t w Q fuel o w' tr} _ _.

(* ===================================================================== *)
(** * Symbolic execution *)
(* ===================================================================== *)

Lemma halts_pr_debug_bind {W} (os : handler W) {T} o fmt args
    (k : unit -> itree E T) (w : W) (Q : _ -> _ -> _ -> Prop) :
  halts os (k tt) w (fun out w' tr => Q out w' (debug o fmt args ++ tr)) ->
  halts os (ITree.bind (pr_debug o fmt args) k) w Q.
Proof.
  unfold pr_debug, debug. destruct (opt_verbose o).
  - apply halts_fprintf_bind.
  - apply halts_ret_bind.
Qed.

Lemma halts_pr_debug {W} (os : handler W) o fmt args (w : W)
    (Q : _ -> _ -> _ -> Prop) :
  Q (Returned tt) w (debug o fmt args) -> halts os (pr_debug o fmt args) w Q.
Proof.
  unfold pr_debug, debug. destruct (opt_verbose o).
  - apply halts_fprintf.
  - apply halts_ret.
Qed.

Lemma halts_iter {W} (os : handler W) {I R} (body : I -> itree E (I + R))
    (i : I) (w : W) Q :
  halts os (ITree.bind (body i)
              (fun lr => match lr with
                         | inl l => Tau (ITree.iter body l)
                         | inr r => Ret r
                         end)) w Q ->
  halts os (ITree.iter body i) w Q.
Proof. apply halts_eq_itree. rewrite unfold_iter. reflexivity. Qed.

Lemma existsb_app_debug (f : entry -> bool) o fmt args tr :
  (forall s a b, f (LPrint s a b) = false) ->
  existsb f (debug o fmt args ++ tr) = existsb f tr.
Proof.
  intros H. unfold debug. destruct (opt_verbose o); cbn; [rewrite H|]; reflexivity.
Qed.

(** One step of a program: a call is answered by the operating system,
    a branch is decided both ways. *)
Ltac same_call :=
  repeat match goal with
  | H1 : ?os _ ?c ?w = _, H2 : ?os _ ?c ?w = _ |- _ =>
    rewrite H1 in H2; inversion H2; subst; clear H2
  end.

Ltac step :=
  lazymatch goal with
  | |- halts _ (ITree.bind (ITree.bind _ _) _) _ _ => apply halts_bind_bind
  | |- halts _ (ITree.bind (sys _) _) _ _ =>
    let x := fresh "x" in
    apply halts_sys_bind; intros ? x ?;
    lazymatch type of x with
    | (_ * _)%type => destruct x
    | _ => idtac
    end; same_call
  | |- halts _ (ITree.bind (pr_debug _ _ _) _) _ _ => apply halts_pr_debug_bind
  | |- halts _ (ITree.bind (pr_error _ _) _) _ _ => apply halts_fprintf_bind
  | |- halts _ (ITree.bind (pr_info _ _) _) _ _ => apply halts_fprintf_bind
  | |- halts _ (ITree.bind (fprintf _ _ _) _) _ _ => apply halts_fprintf_bind
  | |- halts _ (ITree.bind (exit _) _) _ _ => apply halts_exit_bind
  | |- halts _ (ITree.bind (Ret _) _) _ _ => apply halts_ret_bind
  | |- halts _ (exit _) _ _ => apply halts_exit
  | |- halts _ (Ret _) _ _ => apply halts_ret
  | |- halts _ (pr_debug _ _ _) _ _ => apply halts_pr_debug
  | |- halts _ (fprintf _ _ _) _ _ => apply halts_fprintf
  | |- halts _ (ITree.bind (if ?b then _ else _) _) _ _ => destruct b eqn:?
  | |- halts _ (if ?b then _ else _) _ _ => destruct b eqn:?
  end.

(** Perform a call whose answer a hypothesis gives. *)
Ltac answer H :=
  let w := fresh "w" in
  let x := fresh "x" in
  let Hos := fresh "Hos" in
  apply halts_sys_bind; intros w x Hos;
  rewrite H in Hos;
  apply eq_sym in Hos; inversion Hos; subst; clear Hos.

Ltac bools :=
  repeat match goal with
  | H : negb _ = true |- _ => apply negb_true_iff in H
  | H : negb _ = false |- _ => apply negb_false_iff in H
  end.

Ltac finish o :=
  bools; unfold debug; destruct (opt_verbose o);
  cbn -[get_speed_sym get_speed_val to_int to_uint];
  repeat match goal with H : (_ =? _) = _ |- _ => rewrite H end;
  cbn -[get_speed_sym get_speed_val to_int to_uint].

(* ===================================================================== *)
(** * The speed table *)
(* ===================================================================== *)

Section TableFacts.

Variable P : platform.

Lemma ifdef_In (b : baud) (x e : speed) : In e (ifdef P b x) -> e = x.
Proof.
  unfold ifdef. destruct (defined P b); cbn; intuition.
Qed.

(** Leaving macros undefined only removes entries. *)
Lemma speeds_full (e : speed) :
  In e (speeds P) -> In e (speeds (all_defined P)).
Proof.
  unfold speeds. intros H.
  apply in_app_or in H. destruct H as [H|H]; [cbn in H |- *; tauto|].
  repeat (apply in_app_or in H; destruct H as [H|H];
          [apply ifdef_In in H; subst e; cbn; tauto|]).
  apply ifdef_In in H; subst e; cbn; tauto.
Qed.

Lemma NoDup_ifdef {A} (f : speed -> A) (l l' : list speed) b x :
  NoDup (List.map f ((l ++ [x]) ++ l')) -> NoDup (List.map f (l ++ ifdef P b x ++ l')).
Proof.
  unfold ifdef. rewrite <- app_assoc. destruct (defined P b); [auto|].
  rewrite !map_app. cbn. apply NoDup_remove_1.
Qed.

Lemma NoDup_speeds {A} (f : speed -> A) :
  NoDup (List.map f (speeds (all_defined P))) -> NoDup (List.map f (speeds P)).
Proof.
  intros H. rewrite <- (app_nil_r (speeds P)). unfold speeds.
  rewrite <- !app_assoc.
  repeat apply NoDup_ifdef. rewrite app_nil_r. exact H.
Qed.

Lemma speeds_val_NoDup : NoDup (List.map val (speeds P)).
Proof.
  apply NoDup_speeds. cbn.
  repeat (constructor; [cbn; intuition discriminate|]). constructor.
Qed.

Lemma speeds_val_range (e : speed) :
  In e (speeds P) -> 0 <= val e <= 4000000.
Proof.
  intros H. apply speeds_full in H. cbn in H.
  repeat (destruct H as [H|H]; [subst e; cbn; lia|]). contradiction.
Qed.

Lemma speeds_sym_code (e : speed) :
  In e (speeds P) -> exists b, sym e = code P b.
Proof.
  intros H. apply speeds_full in H. cbn in H.
  repeat (destruct H as [H|H]; [subst e; cbn; eexists; reflexivity|]).
  contradiction.
Qed.

Lemma speeds_sym_NoDup :
  (forall a b, code P a = code P b -> a = b) -> NoDup (List.map sym (speeds P)).
Proof.
  intros Hinj. apply NoDup_speeds.
  change (List.map sym (speeds (all_defined P)))
    with (List.map (code P)
            [B0; B50; B75; B110; B134; B150; B200; B300; B600; B1200; B1800;
             B2400; B4800; B9600; B19200; B38400; B57600; B115200; B230400;
             B460800; B500000; B576000; B921600; B1000000; B1152000;
             B1500000; B2000000; B2500000; B3000000; B3500000; B4000000]).
  apply Finite.Injective_map_NoDup; [exact Hinj|].
  repeat (constructor; [cbn; intuition discriminate|]). constructor.
Qed.

Lemma speeds_B0 : In (ent P B0 0) (speeds P).
Proof. unfold speeds. apply in_or_app. left. cbn. tauto. Qed.

End TableFacts.

(** Linear search in a table whose keys are distinct. *)
Section Scan.

Lemma to_int_small (z : Z) : 0 <= z < 2147483648 -> to_int z = z.
Proof.
  intros H. unfold to_int. rewrite Z.mod_small by lia.
  destruct (z <? 2147483648) eqn:E; [reflexivity|]. apply Z.ltb_ge in E. lia.
Qed.

Lemma to_uint_small (z : Z) : 0 <= z < 4294967296 -> to_uint z = z.
Proof. intros H. unfold to_uint. apply Z.mod_small. lia. Qed.

Lemma scan_sym_In (l : list speed) (e : speed) :
  NoDup (List.map val l) -> In e l -> scan_sym l (val e) = sym e.
Proof.
  induction l as [|x l IH]; intros Hnd Hin; [contradiction|].
  cbn in *. inversion Hnd as [|? ? Hx Hnd']; subst.
  destruct Hin as [->|Hin].
  - rewrite Z.eqb_refl. reflexivity.
  - destruct (val x =? val e) eqn:E.
    + apply Z.eqb_eq in E. exfalso. apply Hx. rewrite E. apply (in_map _ _ _ Hin).
    + apply IH; assumption.
Qed.

Lemma scan_val_In (l : list speed) (e : speed) :
  NoDup (List.map sym l) -> In e l -> scan_val l (sym e) = to_int (val e).
Proof.
  induction l as [|x l IH]; intros Hnd Hin; [contradiction|].
  cbn in *. inversion Hnd as [|? ? Hx Hnd']; subst.
  destruct Hin as [->|Hin].
  - rewrite Z.eqb_refl. reflexivity.
  - destruct (sym x =? sym e) eqn:E.
    + apply Z.eqb_eq in E. exfalso. apply Hx. rewrite E. apply (in_map _ _ _ Hin).
    + apply IH; assumption.
Qed.

(** Without any assumption the search stops at some entry with the key. *)
Lemma scan_val_found (l : list speed) (s : Z) :
  (exists e, In e l /\ sym e = s) ->
  exists e, In e l /\ sym e = s /\ scan_val l s = to_int (val e).
Proof.
  induction l as [|x l IH]; intros [e [Hin He]]; [contradiction|].
  cbn. destruct (sym x =? s) eqn:E.
  - apply Z.eqb_eq in E. exists x. cbn. auto.
  - destruct Hin as [->|Hin]; [apply Z.eqb_neq in E; contradiction|].
    destruct IH as [e' [Hin' [He' Hs]]]; [eauto|].
    exists e'. cbn. auto.
Qed.

Lemma scan_sym_found (l : list speed) (v : Z) :
  (exists e, In e l /\ val e = v) ->
  exists e, In e l /\ val e = v /\ scan_sym l v = sym e.
Proof.
  induction l as [|x l IH]; intros [e [Hin He]]; [contradiction|].
  cbn. destruct (val x =? v) eqn:E.
  - apply Z.eqb_eq in E. exists x. cbn. auto.
  - destruct Hin as [->|Hin]; [apply Z.eqb_neq in E; contradiction|].
    destruct IH as [e' [Hin' [He' Hs]]]; [eauto|].
    exists e'. cbn. auto.
Qed.

Lemma scan_val_absent (l : list speed) (s : Z) :
  ~ (exists e, In e l /\ sym e = s) -> scan_val l s = -1.
Proof.
  induction l as [|x l IH]; intros H; [reflexivity|].
  cbn. destruct (sym x =? s) eqn:E.
  - apply Z.eqb_eq in E. exfalso. apply H. exists x. cbn. auto.
  - apply IH. intros [e [Hin He]]. apply H. exists e. cbn. auto.
Qed.

Lemma scan_sym_absent (l : list speed) (v : Z) :
  ~ (exists e, In e l /\ val e = v) -> scan_sym l v = UINT_MAX.
Proof.
  induction l as [|x l IH]; intros H; [reflexivity|].
  cbn. destruct (val x =? v) eqn:E.
  - apply Z.eqb_eq in E. exfalso. apply H. exists x. cbn. auto.
  - apply IH. intros [e [Hin He]]. apply H. exists e. cbn. auto.
Qed.

End Scan.

Lemma to_int_max : to_int UINT_MAX = -1.
Proof. reflexivity. Qed.

Lemma to_uint_to_int (x : Z) : 0 <= x < 4294967296 -> to_uint (to_int x) = x.
Proof.
  intros H. unfold to_int, to_uint. rewrite (Z.mod_small x) by lia.
  destruct (x <? 2147483648).
  - apply Z.mod_small. lia.
  - replace (x - 4294967296) with (x + (-1) * 4294967296) by lia.
    rewrite Z.mod_add by lia. apply Z.mod_small. lia.
Qed.

Lemma scan_sym_cases (l : list speed) (v : Z) :
  scan_sym l v = UINT_MAX
  \/ exists e, In e l /\ val e = v /\ scan_sym l v = sym e.
Proof.
  induction l as [|x l IH]; [left; reflexivity|].
  cbn. destruct (val x =? v) eqn:E.
  - apply Z.eqb_eq in E. right. exists x. auto.
  - destruct IH as [IH|[e [Hin [He Hs]]]]; [left; exact IH|].
    right. exists e. auto.
Qed.

Section ZeroSpeed.

Variable P : platform.
Hypothesis code_inj : forall a b, code P a = code P b -> a = b.
Hypothesis code_range : forall b, 0 <= code P b < 4294967296.

Lemma speeds_nonzero_sym (e : speed) :
  In e (speeds P) -> val e <> 0 -> sym e <> code P B0.
Proof.
  intros H Hv. apply speeds_full in H. cbn in H.
  destruct H as [<-|H]; [cbn in Hv; contradiction|].
  repeat (destruct H as [<-|H];
          [cbn; intros Hc; apply code_inj in Hc; discriminate Hc|]).
  contradiction.
Qed.

(** The symbol handed to [cfsetspeed] for a nonzero speed is never that
    of [B0]. *)
Lemma speed_sym_not_B0 (v : Z) :
  v <> 0 ->
  (to_int (get_speed_sym P v) =? -1) = false ->
  (to_uint (to_int (get_speed_sym P v)) =? code P B0) = false.
Proof.
  intros Hv Hs. apply Z.eqb_neq. unfold get_speed_sym in *.
  destruct (scan_sym_cases (speeds P) v) as [H|[e [Hin [He H]]]].
  - rewrite H in Hs. discriminate.
  - rewrite H. destruct (speeds_sym_code Hin) as [b Hb].
    rewrite to_uint_to_int by (rewrite Hb; apply code_range).
    apply speeds_nonzero_sym; [exact Hin | lia].
Qed.

End ZeroSpeed.

(* ===================================================================== *)
(** * Properties of the speed table *)
(* ===================================================================== *)

(** C7.  The table as built holds every bits-per-second value once; when
    the platform gives distinct macros distinct values it holds every
    speed symbol once; and the entry that maps [B0] to 0 bps is there
    whatever the platform defines. *)
Theorem speed_table_invariant :
  forall P : platform,
    (forall a b, code P a = code P b -> a = b) ->
    NoDup (List.map val (speeds P))
    /\ NoDup (List.map sym (speeds P))
    /\ In {| sym := code P B0; val := 0 |} (speeds P).
Proof.
  intros P Hinj. split; [|split].
  - apply speeds_val_NoDup.
  - apply speeds_sym_NoDup, Hinj.
  - apply speeds_B0.
Qed.

Lemma speed_table_invariant_witness :
  NoDup (List.map val (speeds linux))
  /\ NoDup (List.map sym (speeds linux))
  /\ In {| sym := 0; val := 0 |} (speeds linux).
Proof.
  apply (speed_table_invariant linux).
  intros a b; destruct a, b; vm_compute; intros H;
    first [reflexivity | discriminate H].
Defined.

(** C2.  For every entry of the table, looking the symbol up and the
    resulting value back gives the symbol again, and looking the value up
    and the resulting symbol back gives the value again.  The second half
    needs distinct macros to have distinct values. *)
Theorem speed_lookup_round_trip :
  forall P : platform,
    (forall a b, code P a = code P b -> a = b) ->
    forall e : speed,
      In e (speeds P) ->
      get_speed_sym P (to_uint (get_speed_val P (sym e))) = sym e
      /\ get_speed_val P (get_speed_sym P (val e)) = val e.
Proof.
  intros P Hinj e Hin. unfold get_speed_sym, get_speed_val. split.
  - destruct (@scan_val_found (speeds P) (sym e)) as [e1 [Hin1 [Hs1 Hv1]]];
      [eauto|].
    pose proof (speeds_val_range Hin1) as Hr.
    rewrite Hv1, to_int_small, to_uint_small by lia.
    rewrite scan_sym_In by (auto using speeds_val_NoDup). exact Hs1.
  - pose proof (speeds_val_range Hin) as Hr.
    rewrite scan_sym_In by (auto using speeds_val_NoDup).
    rewrite scan_val_In by (auto using speeds_sym_NoDup).
    apply to_int_small. lia.
Qed.

Lemma speed_lookup_round_trip_witness :
  get_speed_sym linux (to_uint (get_speed_val linux 4098)) = 4098
  /\ get_speed_val linux (get_speed_sym linux 115200) = 115200.
Proof.
  apply (@speed_lookup_round_trip linux) with (e := {| sym := 4098; val := 115200 |}).
  - intros a b; destruct a, b; vm_compute; intros H;
      first [reflexivity | discriminate H].
  - vm_compute. tauto.
Defined.

(** C6.  Each lookup answers its not-found value exactly when the key is
    absent from the table: [-1] for [get_speed_val], which no entry has
    as its value, and [(speed_t)-1] for [get_speed_sym], which no entry
    has as its symbol provided no speed macro of the platform has that
    value.  The 0 bps entry is found and told apart from both. *)
Theorem not_found_is_distinguishable :
  forall P : platform,
    (forall b, code P b <> UINT_MAX) ->
    (forall s, get_speed_val P s = -1
               <-> ~ (exists e, In e (speeds P) /\ sym e = s))
    /\ (forall v, get_speed_sym P v = UINT_MAX
                  <-> ~ (exists e, In e (speeds P) /\ val e = v))
    /\ (forall e, In e (speeds P) -> to_int (val e) <> -1 /\ sym e <> UINT_MAX)
    /\ get_speed_val P (code P B0) = 0
    /\ get_speed_sym P 0 = code P B0.
Proof.
  intros P Hmax.
  assert (Hent : forall e, In e (speeds P) ->
                           to_int (val e) <> -1 /\ sym e <> UINT_MAX).
  { intros e Hin. split.
    - pose proof (speeds_val_range Hin). rewrite to_int_small; lia.
    - destruct (speeds_sym_code Hin) as [b ->]. apply Hmax. }
  split; [|split; [|split; [exact Hent|split]]].
  - intros s. unfold get_speed_val. split.
    + intros H Hex.
      destruct (@scan_val_found _ _ Hex) as [e [Hin [_ Hv]]].
      rewrite Hv in H. destruct (Hent e Hin) as [Hne _]. apply Hne, H.
    + apply scan_val_absent.
  - intros v. unfold get_speed_sym. split.
    + intros H Hex.
      destruct (@scan_sym_found _ _ Hex) as [e [Hin [_ Hv]]].
      rewrite Hv in H. destruct (Hent e Hin) as [_ Hne]. apply Hne, H.
    + apply scan_sym_absent.
  - unfold get_speed_val, speeds. cbn. rewrite Z.eqb_refl. reflexivity.
  - reflexivity.
Qed.

Lemma not_found_is_distinguishable_witness :
  get_speed_val linux 16 = -1
  /\ get_speed_sym linux 12345 = UINT_MAX
  /\ get_speed_val linux 0 = 0
  /\ get_speed_sym linux 0 = 0.
Proof.
  destruct (@not_found_is_distinguishable linux) as [Hv [Hs [_ [H0 H0']]]].
  - intros b; destruct b; vm_compute; discriminate.
  - split; [|split; [|split]].
    + apply Hv. vm_compute. intros [e [Hin He]].
      repeat (destruct Hin as [<-|Hin]; [discriminate He|]). exact Hin.
    + apply Hs. vm_compute. intros [e [Hin He]].
      repeat (destruct Hin as [<-|Hin]; [discriminate He|]). exact Hin.
    + exact H0.
    + exact H0'.
Defined.

(* ===================================================================== *)
(** * The option loop *)
(* ===================================================================== *)

Section Options.

Variable P : platform.

(** Options that the loop accepts are consumed before it looks at what
    follows them. *)
Lemma parse_args_app_le (n : nat) :
  forall (pre rest : list string) (o o1 : opts),
    (List.length pre <= n)%nat ->
    parse_args P pre o = Some o1 ->
    parse_args P (pre ++ rest) o = parse_args P rest o1.
Proof.
  induction n as [|n IH]; intros pre rest o o1 Hlen.
  - destruct pre; [|cbn in Hlen; lia]. cbn. intros H. inversion H. reflexivity.
  - destruct pre as [|a pre]; [cbn; intros H; inversion H; reflexivity|].
    cbn in Hlen. cbn [parse_args app].
    repeat match goal with
           | |- context [if ?c then _ else _] =>
             lazymatch c with
             | (_ || _)%bool => destruct c; [try discriminate; try (apply IH; lia)|]
             end
           end.
    + destruct pre as [|v pre]; [discriminate|]. cbn in Hlen. cbn [app].
      apply IH. lia.
    + destruct (opt_dev o); [discriminate|]. apply IH. lia.
Qed.

Lemma parse_args_app (pre rest : list string) (o o1 : opts) :
  parse_args P pre o = Some o1 ->
  parse_args P (pre ++ rest) o = parse_args P rest o1.
Proof. apply (@parse_args_app_le (List.length pre)). lia. Qed.

Lemma parse_args_help (h : string) (rest : list string) (o : opts) :
  h = "-h" \/ h = "--help" -> parse_args P (h :: rest) o = None.
Proof. intros [->| ->]; reflexivity. Qed.

Lemma parse_args_speed (a v : string) (rest : list string) (o : opts) :
  a = "-s" \/ a = "--speed" ->
  parse_args P (a :: v :: rest) o
  = parse_args P rest (set_speed o (to_uint (strtoul0 P v))).
Proof. intros [->| ->]; reflexivity. Qed.

Lemma set_speed_same (o : opts) : set_speed o (opt_speed o) = o.
Proof. destruct o; reflexivity. Qed.

End Options.

(* ===================================================================== *)
(** * Opening and configuring the device *)
(* ===================================================================== *)

(** C4.  Let [open] succeed.  [device_open] returns the descriptor
    without any configuration call exactly when the attribute query
    fails and [errno] then reads [ENOTTY]; in that case its calls are the
    open, the query, the read of [errno] and the notice.  When the query
    fails with another cause the process ends with a non-zero status. *)
Theorem only_enotty_skips_configuration :
  forall (W : Type) (os : handler W) (P : platform) (o : opts)
         (path : string) (flags : Z) (w w1 w2 w3 : W) (fd r e : Z)
         (tio : termios),
    os _ (Open path flags) w = (w1, fd) ->
    0 <= fd ->
    os _ (Tcgetattr fd) w1 = (w2, (r, tio)) ->
    os _ Errno w2 = (w3, e) ->
    halts os (device_open P o path flags) w (fun out w' tr =>
      ((r <> 0 /\ e = ENOTTY P)
       <-> (out = Returned fd /\ existsb is_config tr = false))
      /\ (r <> 0 -> e = ENOTTY P ->
          w' = w3 /\
          tr = debug o "Opening %s...\n" [ArgS path]
               ++ [LOpen path flags fd; LTcgetattr fd r tio; LErrno e;
                   LPrint stdout "%s is not a tty, skipping tty config\n"
                     [ArgS path]])
      /\ (r <> 0 -> e <> ENOTTY P -> fatal out /\ existsb is_config tr = false)).
Proof.
  intros W os P o path flags w w1 w2 w3 fd r e tio Hopen Hfd Hget Herr.
  unfold device_open.
  step. step.
  step; [apply Z.ltb_lt in Heqb; lia|].
  step. step.
  - (* the query failed *)
    apply negb_true_iff, Z.eqb_neq in Heqb0.
    step. step.
    + apply Z.eqb_eq in Heqb1. step. step.
      rewrite existsb_app_debug by reflexivity. cbn.
      repeat split; auto; intros; tauto.
    + apply Z.eqb_neq in Heqb1. repeat step.
      rewrite existsb_app_debug by reflexivity. cbn.
      split; [split; [intros [_ Hx]; contradiction | intros [Hx _]; discriminate]|].
      split; [intros; contradiction|]. intros _ _.
      split; [|reflexivity]. exists (-1). split; [reflexivity | cbn; discriminate].
  - (* the query succeeded: raw mode is attempted *)
    apply negb_false_iff, Z.eqb_eq in Heqb0. subst.
    do 6 step.
    apply halts_weaken with (Q := fun _ _ _ => True).
    + repeat step; exact I.
    + intros out w' tr _.
      rewrite existsb_app_debug by reflexivity. cbn.
      rewrite !existsb_app_debug by reflexivity. cbn.
      split; [split; [intros [Hx _]; contradiction | intros [_ Hx]; discriminate]|].
      split; intros; contradiction.
Qed.

Lemma only_enotty_skips_configuration_witness :
  halts sim_os (device_open linux opts0 "/tmp/data" 0) (file_world hello [])
    (fun out _ tr => out = Returned 3 /\ existsb is_config tr = false).
Proof.
  eapply halts_weaken.
  - apply (@only_enotty_skips_configuration sim sim_os linux opts0 "/tmp/data" 0
             (file_world hello []) (file_world hello [])
             (sim_fail (file_world hello []) 25)
             (sim_fail (file_world hello []) 25) 3 (-1) 25 raw0);
      [reflexivity | lia | reflexivity | reflexivity].
  - cbn beta. intros out w' tr [[H _] _]. apply H. split; [lia | reflexivity].
Defined.

(** C5.  Let the requested speed be nonzero and absent from the table.
    Whatever the operating system answers, [device_open] never reaches
    [cfsetspeed] and applies attributes at most twice, for raw mode and
    for flow control.  On a terminal (the attribute query succeeds) the
    process ends with a non-zero status, and when the earlier attempts to
    apply attributes succeeded its last act is the diagnostic for the
    unknown speed. *)
Theorem unknown_speed_is_fatal :
  forall (W : Type) (os : handler W) (P : platform) (o : opts)
         (path : string) (flags : Z) (w : W),
    opt_speed o <> 0 ->
    ~ (exists e, In e (speeds P) /\ val e = opt_speed o) ->
    halts os (device_open P o path flags) w (fun out w' tr =>
      existsb is_cfsetspeed tr = false
      /\ (List.length (filter is_tcsetattr tr) <= 2)%nat
      /\ (existsb tty_found tr = true ->
          fatal out
          /\ (existsb set_failed tr = false ->
              final tr = Some (LPrint stderr
                                 (ESC_RED ++ "Unknown serial speed %u\n" ++ ESC_RM)
                                 [ArgI (opt_speed o)])))).
Proof.
  intros W os P o path flags w Hnz Habs.
  unfold device_open.
  rewrite (proj2 (Z.eqb_neq _ _) Hnz).
  unfold get_speed_sym. rewrite (@scan_sym_absent _ _ Habs), to_int_max.
  cbn [negb Z.eqb Pos.eqb].
  repeat step.
  all: finish o.
  all: split; [reflexivity|]; split; [lia|]; intros Htty;
    try discriminate Htty.
  all: split;
    [exists (-1); split; [reflexivity | discriminate]
    | intros Hs; try discriminate Hs; reflexivity].
Qed.

Lemma unknown_speed_is_fatal_witness :
  exists out w' tr,
    run sim_os 32 (device_open linux (set_speed opts0 12345) "/dev/ttyS0" 1)
      (tty_world hello None) = Some (out, w', tr)
    /\ fatal out
    /\ existsb is_cfsetspeed tr = false
    /\ final tr = Some (LPrint stderr
                          (ESC_RED ++ "Unknown serial speed %u\n" ++ ESC_RM)
                          [ArgI 12345]).
Proof.
  eexists _, _, _. split; [vm_compute; reflexivity|].
  assert (H : 12345 <> 0 /\
              ~ (exists e, In e (speeds linux) /\ val e = 12345)).
  { split; [lia|]. vm_compute. intros [e [Hin He]].
    repeat (destruct Hin as [<-|Hin]; [discriminate He|]). exact Hin. }
  destruct H as [Hnz Habs].
  destruct (@halts_run _ sim_os _ _ _ _ 32%nat _ _ _
              (@unknown_speed_is_fatal sim sim_os linux (set_speed opts0 12345)
                 "/dev/ttyS0" 1 (tty_world hello None) Hnz Habs)
              eq_refl) as (Hc & _ & Ht).
  destruct (Ht eq_refl) as [Hf Hl].
  split; [exact Hf|]. split; [exact Hc|]. exact (Hl eq_refl).
Defined.

(** C9.  On a platform that gives distinct speed macros distinct
    [speed_t] values: a speed option whose argument parses to 0 leaves
    the program the same as without the option; with [opt_speed] at 0,
    [device_open] reaches neither [cfsetspeed] nor the diagnostic for an
    unknown speed, and applies only the attributes it queried, made raw
    and with the flow-control bit as asked; and for no value of the speed
    option is [cfsetspeed] ever called with the symbol of the 0 bps
    entry. *)
Theorem zero_speed_is_no_speed :
  forall P : platform,
    (forall a b, code P a = code P b -> a = b) ->
    (forall b, 0 <= code P b < 4294967296) ->
    (forall (prog a v : string) (pre post : list string) (o1 : opts)
            (buf : list byte),
        parse_args P pre opts0 = Some o1 ->
        opt_speed o1 = 0 ->
        a = "-s" \/ a = "--speed" ->
        to_uint (strtoul0 P v) = 0 ->
        main P (prog :: pre ++ a :: v :: post) buf
        = main P (prog :: pre ++ post) buf)
    /\ (forall (W : Type) (os : handler W) (o : opts) (path : string)
               (flags : Z) (w : W),
           opt_speed o = 0 ->
           halts os (device_open P o path flags) w (fun out w' tr =>
             existsb is_cfsetspeed tr = false
             /\ existsb (printed (ESC_RED ++ "Unknown serial speed %u\n"
                                  ++ ESC_RM)) tr = false
             /\ forall fd a t r,
                 In (LTcsetattr fd a t r) tr ->
                 exists tio,
                   In (LTcgetattr fd 0 tio) tr
                   /\ (t = cfmakeraw P tio
                       \/ t = set_c_cflag (cfmakeraw P tio)
                                (Z.lor (c_cflag (cfmakeraw P tio)) (CRTSCTS P))
                       \/ t = set_c_cflag (cfmakeraw P tio)
                                (Z.land (c_cflag (cfmakeraw P tio))
                                   (to_uint (Z.lnot (CRTSCTS P)))))))
    /\ (forall (W : Type) (os : handler W) (o : opts) (path : string)
               (flags : Z) (w : W),
           halts os (device_open P o path flags) w (fun out w' tr =>
             existsb (sets_speed (code P B0)) tr = false)).
Proof.
  intros P Hinj Hrange. split; [|split].
  - intros prog a v pre post o1 buf Hpre Hz Ha Hv.
    unfold main. cbn [tl].
    rewrite !(@parse_args_app P _ _ _ _ Hpre).
    rewrite (@parse_args_speed P _ _ _ _ Ha), Hv, <- Hz, set_speed_same.
    reflexivity.
  - intros W os o path flags w Hz.
    unfold device_open. rewrite Hz. cbn [Z.eqb negb].
    repeat step.
    all: finish o.
    all: split; [reflexivity|]; split; [reflexivity|].
    all: intros fd' a' t' r' Hin.
    all: repeat (destruct Hin as [Hin|Hin]; [try discriminate Hin|]);
      try contradiction.
    all: repeat match goal with
                | H : (?z =? 0) = true |- _ => apply Z.eqb_eq in H; subst z
                end.
    all: inversion Hin; subst; eexists; split; [cbn; eauto 20 | eauto].
    all: destruct (opt_hwflow o); auto.
  - intros W os o path flags w.
    unfold device_open.
    repeat step.
    all: finish o.
    all: try reflexivity.
    all: rewrite (@speed_sym_not_B0 P Hinj Hrange (opt_speed o));
      [reflexivity | apply Z.eqb_neq; assumption | assumption].
Qed.

Lemma zero_speed_is_no_speed_witness :
  main linux ["sercat"; "-w"; "--speed"; "fast"; "/dev/ttyS0"] []
  = main linux ["sercat"; "-w"; "/dev/ttyS0"] []
  /\ halts sim_os (device_open linux (set_write opts0) "/dev/ttyS0" 1)
       (tty_world hello None)
       (fun out w' tr =>
          existsb is_cfsetspeed tr = false
          /\ existsb (sets_speed 0) tr = false).
Proof.
  assert (Hinj : forall a b, code linux a = code linux b -> a = b).
  { intros a b; destruct a, b; vm_compute; intros H;
      first [reflexivity | discriminate H]. }
  assert (Hrange : forall b, 0 <= code linux b < 4294967296).
  { intros b; destruct b; vm_compute; (split; [discriminate | reflexivity]). }
  destruct (@zero_speed_is_no_speed linux Hinj Hrange) as (Hmain & Hzero & Hb0).
  split.
  - apply (Hmain "sercat" "--speed" "fast" ["-w"] ["/dev/ttyS0"]
             (set_write opts0) []).
    + reflexivity.
    + reflexivity.
    + right. reflexivity.
    + reflexivity.
  - pose proof (Hzero sim sim_os (set_write opts0) "/dev/ttyS0" 1
                  (tty_world hello None) eq_refl) as H1.
    pose proof (Hb0 sim sim_os (set_write opts0) "/dev/ttyS0" 1
                  (tty_world hello None)) as H2.
    destruct H1 as (f1 & o1 & w1 & tr1 & Hr1 & Hc & _).
    destruct H2 as (f2 & o2 & w2 & tr2 & Hr2 & Hs).
    pose proof (run_det _ _ _ _ _ Hr1 Hr2) as Heq. inversion Heq; subst.
    exists f2, o2, w2, tr2. auto.
Defined.

(* ===================================================================== *)
(** * The relay loop *)
(* ===================================================================== *)

Lemma store_firstn (buf d : list byte) :
  (List.length d <= Z.to_nat BUF_SIZE)%nat ->
  firstn (List.length d) (store buf d) = d.
Proof.
  intros H. unfold store.
  rewrite firstn_firstn, Nat.min_l by exact H.
  rewrite firstn_app, Nat.sub_diag, firstn_all. cbn. apply app_nil_r.
Qed.

Lemma length_concat_le {A} (c : nat) (ls : list (list A)) :
  Forall (fun d => (List.length d <= c)%nat) ls ->
  (List.length (List.concat ls) <= c * List.length ls)%nat.
Proof.
  induction 1 as [|d ls Hd _ IH]; cbn; [lia|].
  rewrite length_app. lia.
Qed.

Lemma writes_app (tx : Z) (tr1 tr2 : list entry) :
  writes tx (tr1 ++ tr2) = writes tx tr1 ++ writes tx tr2.
Proof. apply flat_map_app. Qed.

Section Streams.

Context {W : Type} (os : handler W) (P : platform) (rx tx : Z).
Variable holds : W -> list byte -> list byte -> Prop.
Hypothesis Hstreams : streams os rx tx holds.

(** The loop between streams: every byte of the source reaches the sink,
    in order, in writes of at most [BUF_SIZE] bytes, and the loop ends
    by its [break]. *)
Lemma relay_loop_streams (n : nat) :
  forall (w : W) (buf src snk : list byte),
    List.length src = n ->
    holds w src snk ->
    halts os (ITree.iter (relay_turn P rx tx) buf) w (fun out w' tr =>
      out = Returned tt
      /\ holds w' [] (snk ++ src)
      /\ List.concat (writes tx tr) = src
      /\ Forall (fun d => (List.length d <= Z.to_nat BUF_SIZE)%nat)
                (writes tx tr)).
Proof.
  induction n as [n IH] using lt_wf_ind. intros w buf src snk Hn Hw.
  apply halts_iter. unfold relay_turn at 1.
  apply halts_bind_bind, halts_sys_bind. intros w1 [in_ d] Hos.
  destruct (@streams_read _ _ _ _ _ Hstreams _ _ _ _ _ _ Hw Hos)
    as (k & -> & -> & Hle1 & Hle2 & Hpos & Hw1).
  cbn [record_call].
  destruct src as [|b l].
  - (* end of stream *)
    assert (k = 0%nat) by (cbn in Hle1; lia). subst k.
    cbn [Z.of_nat Z.eqb].
    apply halts_ret_bind, halts_ret. cbn.
    rewrite app_nil_r. cbn in Hw1. auto.
  - assert (Hk : (0 < k)%nat) by (apply Hpos; discriminate).
    set (src := b :: l) in *.
    destruct (Z.of_nat k =? 0) eqn:E0; [apply Z.eqb_eq in E0; lia|].
    destruct (Z.of_nat k <? 0) eqn:E1; [apply Z.ltb_lt in E1; lia|].
    rewrite Nat2Z.id.
    assert (Hlen : List.length (firstn k src) = k)
      by (apply firstn_length_le; exact Hle1).
    replace (firstn k (store buf (firstn k src))) with (firstn k src)
      by (rewrite <- Hlen at 2; rewrite store_firstn; [reflexivity | lia]).
    apply halts_bind_bind, halts_sys_bind. intros w2 out Hos2.
    destruct (@streams_write _ _ _ _ _ Hstreams _ _ _ _ _ _ Hw1 Hos2) as (-> & Hw2).
    rewrite Hlen.
    destruct (Z.of_nat k <? 0) eqn:E2; [discriminate|].
    rewrite Z.ltb_irrefl.
    apply halts_ret_bind, halts_tau.
    eapply halts_weaken.
    + apply (IH (List.length src - k)%nat) with (3 := Hw2);
        [lia | rewrite length_skipn; reflexivity].
    + cbn beta. intros out w' tr (Ho & Hw' & Hc & Hf).
      unfold writes in *. cbn [flat_map written app record_call].
      rewrite Z.eqb_refl. cbn [app List.concat].
      rewrite Hc, <- app_assoc, firstn_skipn in *.
      repeat split; auto.
      constructor; [lia | exact Hf].
Qed.

End Streams.

(** C1.  Let the source and the sink behave as streams: the source
    holds a finite sequence of bytes, delivers it piece by piece and
    then reports end-of-stream, and the sink takes all it is given.
    Then the relay loop ends with [exit(0)]; the sink has then received
    exactly the bytes of the source in their order, the data of the
    [write] calls are those bytes, and no call carries more than
    [BUF_SIZE] of them, so that longer sequences take several turns. *)
Theorem relay_delivers_every_byte :
  forall (W : Type) (os : handler W) (rx_fd tx_fd : Z)
         (holds : W -> list byte -> list byte -> Prop),
    streams os rx_fd tx_fd holds ->
    forall (P : platform) (o : opts) (buf src snk : list byte) (w : W),
      holds w src snk ->
      halts os (relay P o rx_fd tx_fd buf) w (fun out w' tr =>
        out = Exited 0
        /\ holds w' [] (snk ++ src)
        /\ List.concat (writes tx_fd tr) = src
        /\ Forall (fun d => (List.length d <= Z.to_nat BUF_SIZE)%nat)
                  (writes tx_fd tr)
        /\ (List.length src
            <= Z.to_nat BUF_SIZE * List.length (writes tx_fd tr))%nat).
Proof.
  intros W os rx tx holds Hs P o buf src snk w Hw. unfold relay.
  apply halts_bind.
  eapply halts_weaken;
    [apply (@relay_loop_streams W os P rx tx holds Hs _ w buf src snk eq_refl Hw)|].
  cbn beta. intros out w1 tr1 (-> & Hw1 & Hc & Hf).
  apply halts_sys_bind. intros w2 r Hos. apply halts_exit.
  rewrite writes_app. cbn [writes flat_map written record_call app].
  rewrite app_nil_r.
  repeat split; auto.
  - exact (@streams_close _ _ _ _ _ Hs _ _ _ _ _ _ Hw1 Hos).
  - rewrite <- Hc at 1. apply length_concat_le, Hf.
Qed.

Section SimFacts.

Lemma sim_read (w : sim) (rx count : Z) :
  sim_rx w = rx ->
  sim_os (Read rx count) w
  = (sim_take w (sim_chunk w count),
     (Z.of_nat (sim_chunk w count), firstn (sim_chunk w count) (sim_src w))).
Proof. intros <-. cbn. rewrite Z.eqb_refl. reflexivity. Qed.

Lemma sim_write (w : sim) (tx : Z) (data : list byte) :
  sim_tx w = tx -> sim_room w = None ->
  sim_os (Write tx data) w = (sim_put w data, Z.of_nat (List.length data)).
Proof.
  intros <- Hroom. cbn. rewrite Z.eqb_refl, Hroom, firstn_all. reflexivity.
Qed.

Lemma sim_chunk_le (w : sim) (count : Z) :
  (sim_chunk w count <= List.length (sim_src w))%nat
  /\ (sim_chunk w count <= Z.to_nat count)%nat.
Proof. unfold sim_chunk. destruct (sim_chunks w); lia. Qed.

Lemma sim_chunk_pos (w : sim) (count : Z) :
  sim_src w <> [] -> 0 < count -> (0 < sim_chunk w count)%nat.
Proof.
  intros Hsrc Hc. unfold sim_chunk.
  destruct (sim_src w) as [|b l]; [contradiction|]. cbn [List.length].
  destruct (sim_chunks w); lia.
Qed.

(** The simulated system is a pair of streams when its sink has room. *)
Lemma sim_streams (rx tx : Z) : streams sim_os rx tx (sim_holds rx tx).
Proof.
  split.
  - intros w src snk w1 n d (Hrx & Htx & Hroom & Hsrc & Hsnk) Hos.
    rewrite (sim_read w BUF_SIZE Hrx) in Hos. inversion Hos; subst; clear Hos.
    exists (sim_chunk w BUF_SIZE).
    destruct (sim_chunk_le w BUF_SIZE) as [Hle1 Hle2].
    repeat split; auto.
    intros Hne. apply sim_chunk_pos; [exact Hne | reflexivity].
  - intros w src snk data w1 out (Hrx & Htx & Hroom & Hsrc & Hsnk) Hos.
    rewrite (sim_write w data Htx Hroom) in Hos. inversion Hos; subst; clear Hos.
    split; [reflexivity|]. repeat split; auto.
  - intros w src snk fd w1 r (Hrx & Htx & Hroom & Hsrc & Hsnk) Hos.
    cbn in Hos. inversion Hos; subst; clear Hos. repeat split; auto.
Qed.

End SimFacts.

Lemma relay_delivers_every_byte_witness :
  halts sim_os (relay linux opts0 3 1 []) (file_world hello [1%nat; 0%nat])
    (fun out w' tr => out = Exited 0 /\ sim_sink w' = hello
                      /\ List.concat (writes 1 tr) = hello).
Proof.
  eapply halts_weaken.
  - apply (@relay_delivers_every_byte sim sim_os 3 1 (sim_holds 3 1)
             (sim_streams 3 1) linux opts0 [] hello []
             (file_world hello [1%nat; 0%nat])).
    repeat split; reflexivity.
  - cbn beta. intros out w' tr (Ho & (_ & _ & _ & _ & Hk) & Hw & _). auto.
Defined.

Section Relay.

Context {W : Type} (os : handler W) (P : platform).

(** Turns that go round again put their calls in front of what the loop
    does next. *)
Lemma halts_turns (rx tx : Z) (w w' : W) (buf buf' : list byte)
    (pre : list entry) (Q : outcome unit -> W -> list entry -> Prop) :
  turns os rx tx w buf pre w' buf' ->
  halts os (ITree.iter (relay_turn P rx tx) buf') w'
    (fun out w'' tr => Q out w'' (pre ++ tr)) ->
  halts os (ITree.iter (relay_turn P rx tx) buf) w Q.
Proof.
  intros Ht. revert Q.
  induction Ht as [w buf | w w1 w2 w' buf buf' d n out tr Hr Hn Hw Hout Ht IH];
    intros Q H.
  - exact H.
  - apply halts_iter. unfold relay_turn at 1.
    step. answer Hr.
    destruct (n =? 0) eqn:E0; [apply Z.eqb_eq in E0; lia|].
    destruct (n <? 0) eqn:E1; [apply Z.ltb_lt in E1; lia|].
    step. answer Hw.
    destruct (out <? 0) eqn:E2; [apply Z.ltb_lt in E2; lia|].
    destruct (out <? n) eqn:E3; [apply Z.ltb_lt in E3; lia|].
    step. apply halts_tau. apply IH. exact H.
Qed.

(** A short write ends the loop at once. *)
Lemma halts_short_write (rx tx : Z) (w w1 w2 : W) (buf d : list byte)
    (n out : Z) :
  @os _ (Read rx BUF_SIZE) w = (w1, (n, d)) ->
  @os _ (Write tx (firstn (Z.to_nat n) (store buf d))) w1 = (w2, out) ->
  0 <= out < n ->
  halts os (ITree.iter (relay_turn P rx tx) buf) w (fun res w' tr =>
    res = Exited (-1) /\ w' = w2
    /\ tr = [LRead rx BUF_SIZE n d;
             LWrite tx (firstn (Z.to_nat n) (store buf d)) out;
             LPrint stderr (ESC_RED ++ "Short write %zd < %zu\n" ++ ESC_RM)
               [ArgI out; ArgI n]]).
Proof.
  intros Hr Hw Hout.
  apply halts_iter. unfold relay_turn at 1.
  step. answer Hr.
  destruct (n =? 0) eqn:E0; [apply Z.eqb_eq in E0; lia|].
  destruct (n <? 0) eqn:E1; [apply Z.ltb_lt in E1; lia|].
  step. answer Hw.
  destruct (out <? 0) eqn:E2; [apply Z.ltb_lt in E2; lia|].
  destruct (out <? n) eqn:E3; [|apply Z.ltb_ge in E3; lia].
  step. step. step. cbn. auto.
Qed.

End Relay.

(** C3.  Let the relay loop have gone round any number of times, and let
    the write of the next turn take fewer bytes than were just read,
    without reporting an error.  Then the process ends at once with a
    non-zero status: after that write its only act is the diagnostic
    that names the two byte counts, and no further [write] follows. *)
Theorem short_write_is_fatal :
  forall (W : Type) (os : handler W) (P : platform) (o : opts)
         (rx_fd tx_fd : Z) (w0 w w1 w2 : W) (buf0 buf d : list byte)
         (pre : list entry) (n out : Z),
    turns os rx_fd tx_fd w0 buf0 pre w buf ->
    os _ (Read rx_fd BUF_SIZE) w = (w1, (n, d)) ->
    os _ (Write tx_fd (firstn (Z.to_nat n) (store buf d))) w1 = (w2, out) ->
    0 <= out < n ->
    halts os (relay P o rx_fd tx_fd buf0) w0 (fun res w' tr =>
      fatal res
      /\ w' = w2
      /\ tr = pre
              ++ [LRead rx_fd BUF_SIZE n d;
                  LWrite tx_fd (firstn (Z.to_nat n) (store buf d)) out;
                  LPrint stderr
                    (ESC_RED ++ "Short write %zd < %zu\n" ++ ESC_RM)
                    [ArgI out; ArgI n]]).
Proof.
  intros W os P o rx tx w0 w w1 w2 buf0 buf d pre n out Ht Hr Hw Hout.
  unfold relay. apply halts_bind.
  eapply halts_turns; [exact Ht|].
  eapply halts_weaken; [eapply halts_short_write; eassumption|].
  cbn beta. intros res w' tr (-> & -> & ->).
  split; [|auto]. exists (-1). split; [reflexivity | discriminate].
Qed.

Lemma short_write_is_fatal_witness :
  halts sim_os (relay linux opts0 0 3 []) (tty_world hello (Some 2%nat))
    (fun res w' tr =>
       fatal res /\ sim_sink w' = [Byte.x68; Byte.x65]
       /\ List.length (writes 3 tr) = 1%nat).
Proof.
  eapply halts_weaken.
  - apply (@short_write_is_fatal sim sim_os linux opts0 0 3
             (tty_world hello (Some 2%nat)) (tty_world hello (Some 2%nat))
             (sim_take (tty_world hello (Some 2%nat)) 6)
             (sim_put (sim_take (tty_world hello (Some 2%nat)) 6)
                [Byte.x68; Byte.x65])
             [] [] hello [] 6 2).
    + apply turns_nil.
    + reflexivity.
    + reflexivity.
    + lia.
  - cbn beta. intros res w' tr (Hf & -> & ->). split; [exact Hf|]. split; reflexivity.
Defined.

(* ===================================================================== *)
(** * Which descriptors are opened and closed *)
(* ===================================================================== *)

Lemma opened_app (tr1 tr2 : list entry) :
  opened (tr1 ++ tr2) = opened tr1 ++ opened tr2.
Proof. apply flat_map_app. Qed.

Lemma closed_app (tr1 tr2 : list entry) :
  closed (tr1 ++ tr2) = closed tr1 ++ closed tr2.
Proof. apply flat_map_app. Qed.

Lemma final_snoc (tr : list entry) (e : entry) : final (tr ++ [e]) = Some e.
Proof. unfold final. rewrite rev_app_distr. reflexivity. Qed.

Section Descriptors.

Context {W : Type} (os : handler W) (P : platform).

Lemma device_open_calls (o : opts) (path : string) (flags : Z) (w : W) :
  halts os (device_open P o path flags) w (opens_only (fun fd => [fd])).
Proof.
  unfold device_open, opens_only.
  repeat step.
  all: unfold debug; destruct (opt_verbose o); cbn.
  all: split; reflexivity.
Qed.

Lemma relay_turn_calls (rx tx : Z) (buf : list byte) (w : W) :
  halts os (relay_turn P rx tx buf) w (opens_only (fun _ => [])).
Proof.
  unfold relay_turn, opens_only.
  repeat step.
  all: cbn.
  all: split; reflexivity.
Qed.

(** However long the loop runs, it opens and closes nothing, and it
    leaves only by its [break] or through [exit(-1)]. *)
Lemma relay_loop_calls (rx tx : Z) (fuel : nat) :
  forall (w : W) (buf : list byte) out w' tr,
    run os fuel (ITree.iter (relay_turn P rx tx) buf) w = Some (out, w', tr) ->
    opens_only (fun _ => []) out w' tr.
Proof.
  induction fuel as [|fuel IH]; intros w buf out w' tr H; [discriminate|].
  rewrite (run_eq_itree os (S fuel) w (unfold_iter _ _)) in H.
  apply run_bind_inv in H.
  destruct H as [[s [-> Hs]]|[r [w1 [tr1 [tr2 [Hb [Hk ->]]]]]]].
  - exact (halts_run (relay_turn_calls rx tx buf w) Hs).
  - destruct (halts_run (relay_turn_calls rx tx buf w) Hb) as (Hc & Ho).
    destruct r as [buf'|[]]; rewrite run_S in Hk; cbn in Hk.
    + destruct (IH _ _ _ _ _ Hk) as (Hc' & Ho').
      split; [rewrite closed_app, Hc, Hc'; reflexivity|].
      destruct out; [rewrite opened_app, Ho, Ho'; reflexivity | exact Ho'].
    + inversion Hk; subst. rewrite app_nil_r. split; assumption.
Qed.

Lemma usage_run {R} (w : W) :
  halts os (@usage P R) w (fun out w' tr =>
    out = Exited 1 /\ w' = w
    /\ tr = [LPrint stderr usage_text [ArgS (getprogname P)]]).
Proof. unfold usage. repeat step. auto. Qed.

(** Obtaining the two descriptors opens the device and nothing else. *)
Lemma endpoints_calls (o : opts) (dev : string) (w : W) :
  halts os
    (if opt_write o
     then ITree.bind (device_open P o dev (O_WRONLY P)) (fun tx_fd => Ret (0, tx_fd))
     else ITree.bind (device_open P o dev (O_RDONLY P)) (fun rx_fd => Ret (rx_fd, 1)))
    w (opens_only (fun fds => [if opt_write o then snd fds else fst fds])).
Proof.
  destruct (opt_write o); apply halts_bind;
    (eapply halts_weaken; [apply device_open_calls|]);
    intros out w' tr (Hc & Ho); destruct out as [fd|s].
  1,3: apply halts_ret; unfold opens_only; rewrite app_nil_r;
    split; assumption.
  all: split; assumption.
Qed.

End Descriptors.

(** C8.  Whenever the program ends with [exit(0)], in read mode or in
    write mode, its run has opened exactly one descriptor, by the [open]
    of [device_open], and has closed exactly that descriptor, as its
    last call; standard input and standard output, unless [open]
    returned their very number, are never closed. *)
Theorem shutdown_closes_the_device_only :
  forall (W : Type) (os : handler W) (P : platform) (argv : list string)
         (buf : list byte) (fuel : nat) (w w' : W) (tr : list entry),
    run os fuel (main P argv buf) w = Some (Exited 0, w', tr) ->
    exists fd r,
      opened tr = [fd]
      /\ closed tr = [fd]
      /\ final tr = Some (LClose fd r)
      /\ forall std, In std [0; 1] -> std <> fd -> ~ In std (closed tr).
Proof.
  intros W os P argv buf fuel w w' tr H. unfold main in H.
  assert (Husage : forall (w0 : W) w1 tr1,
             run os fuel (@usage P void) w0 = Some (Exited 0, w1, tr1) -> False).
  { intros w0 w1 tr1 Hu.
    destruct (halts_run (usage_run os P w0) Hu) as [Hx _]. discriminate. }
  destruct (parse_args P (tl argv) opts0) as [o|]; [|exfalso; eauto].
  destruct (opt_dev o) as [dev|]; [|exfalso; eauto].
  destruct (opt_hwflow o && opt_noflow o || opt_read o && opt_write o);
    [exfalso; eauto|].
  apply run_bind_inv in H.
  destruct H as [[s [Hs Hr]]|[[rx tx] [w1 [tr1 [tr2 [Hopen [Hrelay ->]]]]]]].
  { destruct (halts_run (endpoints_calls os P o dev w) Hr) as (_ & He).
    inversion Hs; subst. discriminate. }
  destruct (halts_run (endpoints_calls os P o dev w) Hopen) as (Hc1 & Ho1).
  cbn [fst snd] in Ho1.
  unfold relay in Hrelay. apply run_bind_inv in Hrelay.
  destruct Hrelay as [[s [Hs Hr]]|[[] [w2 [tr3 [tr4 [Hloop [Hend ->]]]]]]].
  { destruct (relay_loop_calls os P rx tx fuel _ _ Hr) as (_ & He).
    inversion Hs; subst. discriminate. }
  destruct (relay_loop_calls os P rx tx fuel _ _ Hloop) as (Hc3 & Ho3).
  assert (Hclose :
    halts os (ITree.bind (sys (Close (if opt_write o then tx else rx)))
                (fun _ => exit 0)) w2
      (fun (out : outcome void) _ tr =>
         exists r, tr = [LClose (if opt_write o then tx else rx) r])).
  { repeat step. eexists. reflexivity. }
  destruct (halts_run Hclose Hend) as [r ->].
  exists (if opt_write o then tx else rx), r.
  rewrite !opened_app, !closed_app, Ho1, Ho3, Hc1, Hc3. cbn.
  split; [reflexivity|]. split; [reflexivity|].
  split; [rewrite app_assoc; apply final_snoc|].
  intros std _ Hne [Hin|[]]. apply Hne. symmetry. exact Hin.
Qed.

Lemma shutdown_closes_the_device_only_witness :
  exists w' tr,
    run sim_os 32 (main linux ["sercat"; "/tmp/data"] [])
      (file_world hello [1%nat]) = Some (Exited 0, w', tr)
    /\ opened tr = [3] /\ closed tr = [3] /\ final tr = Some (LClose 3 0).
Proof.
  eexists _, _. split; [vm_compute; reflexivity|].
  destruct (@shutdown_closes_the_device_only sim sim_os linux
              ["sercat"; "/tmp/data"] [] 32%nat (file_world hello [1%nat])
              _ _ eq_refl) as (fd & r & Ho & Hc & Hf & _).
  cbv in Hf. inversion Hf; subst fd r. auto.
Defined.

(* ===================================================================== *)
(** * The help option *)
(* ===================================================================== *)

(** C10.  When the option loop reaches [-h] or [--help], the program is
    the usage error itself: the same tree as for a missing device
    argument.  It prints the usage text on the error stream and ends
    with [exit(1)], whose status is not 0, without a single call into
    the operating system. *)
Theorem help_takes_the_usage_error_path :
  forall (W : Type) (os : handler W) (P : platform) (prog h : string)
         (pre post : list string) (o1 : opts) (buf : list byte) (w : W),
    parse_args P pre opts0 = Some o1 ->
    h = "-h" \/ h = "--help" ->
    main P (prog :: pre ++ h :: post) buf = main P [prog] buf
    /\ halts os (main P (prog :: pre ++ h :: post) buf) w (fun out w' tr =>
         out = Exited 1
         /\ wait_status 1 <> 0
         /\ w' = w
         /\ tr = [LPrint stderr usage_text [ArgS (getprogname P)]]).
Proof.
  intros W os P prog h pre post o1 buf w Hpre Hh.
  assert (Hmain : main P (prog :: pre ++ h :: post) buf = usage P).
  { unfold main. cbn [tl].
    rewrite (@parse_args_app P _ _ _ _ Hpre), (@parse_args_help P _ _ _ Hh). reflexivity. }
  split; [rewrite Hmain; reflexivity|].
  rewrite Hmain. eapply halts_weaken; [apply usage_run|].
  cbn beta. intros out w' tr (-> & -> & ->).
  repeat split. discriminate.
Qed.

Lemma help_takes_the_usage_error_path_witness :
  halts sim_os (main linux ["sercat"; "-w"; "--help"; "/dev/ttyS0"] [])
    (tty_world hello None)
    (fun out w' tr => out = Exited 1 /\ w' = tty_world hello None).
Proof.
  eapply halts_weaken.
  - apply (@help_takes_the_usage_error_path sim sim_os linux "sercat" "--help"
             ["-w"] ["/dev/ttyS0"] (set_write opts0) [] (tty_world hello None)).
    + reflexivity.
    + right. reflexivity.
  - cbn beta. intros out w' tr (Ho & _ & Hw & _). auto.
Defined.

(* ===================================================================== *)
(** * Further properties of the speed table *)
(* ===================================================================== *)

Section TableMore.

Variable P : platform.

Lemma bps_inj (a b : baud) : bps a = bps b -> a = b.
Proof.
  destruct a, b; cbn; intros H; first [reflexivity | discriminate H].
Qed.

Lemma ifdef_In_iff (b : baud) (x e : speed) :
  In e (ifdef P b x) <-> defined P b = true /\ e = x.
Proof.
  unfold ifdef. destruct (defined P b); cbn; intuition congruence.
Qed.

(** The rows of the table are those of the macros compiled in. *)
Lemma speeds_In_iff (e : speed) :
  In e (speeds P)
  <-> exists b, compiled P b = true /\ e = ent P b (bps b).
Proof.
  split.
  - unfold speeds. intros H.
    apply in_app_or in H. destruct H as [H|H].
    { cbn in H.
      repeat (destruct H as [<-|H];
              [match goal with |- exists _, _ /\ ent P ?x _ = _ => exists x end;
               split; reflexivity|]).
      contradiction. }
    repeat (apply in_app_or in H; destruct H as [H|H];
            [apply ifdef_In_iff in H; destruct H as [Hd ->];
             match goal with |- exists _, _ /\ ent P ?x _ = _ => exists x end;
             split; [|reflexivity]; unfold compiled; rewrite Hd;
             apply orb_true_r|]).
    apply ifdef_In_iff in H; destruct H as [Hd ->].
    exists B4000000. split; [|reflexivity]. unfold compiled. rewrite Hd.
    apply orb_true_r.
  - intros [b [Hc ->]]. unfold speeds, compiled in *.
    apply in_or_app.
    destruct (unconditional b) eqn:Hu.
    + left. destruct b; try discriminate Hu; cbn [bps];
        repeat first [left; reflexivity | right].
    + right. cbn in Hc.
      destruct b; try discriminate Hu; cbn [bps];
        repeat (first [ apply in_or_app; left; apply ifdef_In_iff;
                        split; [exact Hc | reflexivity]
                      | apply in_or_app; right ]).
      apply ifdef_In_iff; split; [exact Hc | reflexivity].
Qed.

(** The search by rate finds the row of a macro compiled in. *)
Lemma get_speed_sym_compiled (b : baud) :
  compiled P b = true -> get_speed_sym P (bps b) = code P b.
Proof.
  intros Hc. unfold get_speed_sym.
  change (code P b) with (sym (ent P b (bps b))).
  change (bps b) with (val (ent P b (bps b))) at 1.
  apply scan_sym_In; [apply speeds_val_NoDup|].
  apply speeds_In_iff. exists b. auto.
Qed.

Lemma get_speed_sym_left_out (b : baud) :
  compiled P b = false -> get_speed_sym P (bps b) = UINT_MAX.
Proof.
  intros Hc. apply scan_sym_absent. intros [e [Hin He]].
  apply speeds_In_iff in Hin. destruct Hin as [b' [Hc' ->]].
  cbn in He. apply bps_inj in He. subst b'. congruence.
Qed.

End TableMore.

(** X1.  A rate is supported exactly when the row of its macro is
    compiled in: the sixteen rows outside [#ifdef] always, the others
    when the platform defines the macro.  [get_speed_sym] then answers
    the value of that macro, and otherwise its not-found value. *)
Theorem supported_speeds_follow_ifdef :
  forall (P : platform) (b : baud),
    get_speed_sym P (bps b)
    = if compiled P b then code P b else UINT_MAX.
Proof.
  intros P b. destruct (compiled P b) eqn:Hc.
  - apply get_speed_sym_compiled, Hc.
  - apply get_speed_sym_left_out, Hc.
Qed.

(** X2.  For a key that the table holds, each lookup answers with what an
    entry of the table pairs with that key; this needs nothing of the
    platform. *)
Theorem lookups_answer_from_the_table :
  forall (P : platform) (e : speed),
    In e (speeds P) ->
    In {| sym := sym e; val := get_speed_val P (sym e) |} (speeds P)
    /\ In {| sym := get_speed_sym P (val e); val := val e |} (speeds P).
Proof.
  intros P e Hin. unfold get_speed_val, get_speed_sym. split.
  - destruct (@scan_val_found (speeds P) (sym e)) as [e1 [Hin1 [Hs1 Hv1]]];
      [eauto|].
    pose proof (speeds_val_range Hin1) as Hr.
    rewrite Hv1, to_int_small by lia. rewrite <- Hs1.
    destruct e1; exact Hin1.
  - destruct (@scan_sym_found (speeds P) (val e)) as [e1 [Hin1 [Hv1 Hs1]]];
      [eauto|].
    rewrite Hs1, <- Hv1. destruct e1; exact Hin1.
Qed.

Lemma lookups_answer_from_the_table_witness :
  In {| sym := 13; val := get_speed_val linux 13 |} (speeds linux)
  /\ In {| sym := get_speed_sym linux 9600; val := 9600 |} (speeds linux).
Proof.
  apply (@lookups_answer_from_the_table linux {| sym := 13; val := 9600 |}).
  vm_compute. tauto.
Defined.

(** X3.  What [get_speed_val] answers is [-1] or the rate of a row
    compiled into the table whose macro has the value asked for; the
    conversion of the rate to [int] never changes it. *)
Theorem speed_values_are_rates :
  forall (P : platform) (s : Z),
    get_speed_val P s = -1
    \/ exists b, compiled P b = true /\ code P b = s
                 /\ get_speed_val P s = bps b.
Proof.
  intros P s. unfold get_speed_val.
  assert (Hc : scan_val (speeds P) s = -1
               \/ exists e, In e (speeds P) /\ sym e = s
                            /\ scan_val (speeds P) s = to_int (val e)).
  { induction (speeds P) as [|x l IH]; [left; reflexivity|].
    cbn. destruct (sym x =? s) eqn:E.
    - apply Z.eqb_eq in E. right. exists x. auto.
    - destruct IH as [IH|[e [Hin [He Hs]]]]; [left; exact IH|].
      right. exists e. auto. }
  destruct Hc as [Hc|[e [Hin [He Hs]]]]; [left; exact Hc|].
  right. pose proof (speeds_val_range Hin) as Hr.
  apply speeds_In_iff in Hin. destruct Hin as [b [Hb ->]].
  exists b. cbn in *. rewrite Hs, to_int_small by lia. auto.
Qed.

(* ===================================================================== *)
(** * Further properties of [device_open] *)
(* ===================================================================== *)

Lemma syscalls_app (l1 l2 : list entry) :
  syscalls (l1 ++ l2) = syscalls l1 ++ syscalls l2.
Proof. apply filter_app. Qed.

Lemma syscalls_debug (o : opts) fmt args : syscalls (debug o fmt args) = [].
Proof. unfold debug. destruct (opt_verbose o); reflexivity. Qed.

(** X4.  When [open] fails, [device_open] reads [errno], reports on
    [stderr] which file it could not open and in which direction, and
    ends the process with [exit(-1)]; it makes no other call. *)
Theorem open_failure_is_fatal :
  forall (W : Type) (os : handler W) (P : platform) (o : opts)
         (path : string) (flags : Z) (w w1 w2 : W) (fd e : Z),
    os _ (Open path flags) w = (w1, fd) ->
    fd < 0 ->
    os _ Errno w1 = (w2, e) ->
    halts os (device_open P o path flags) w (fun out w' tr =>
      out = Exited (-1)
      /\ wait_status (-1) <> 0
      /\ w' = w2
      /\ tr = debug o "Opening %s...\n" [ArgS path]
              ++ [LOpen path flags fd; LErrno e;
                  LPrint stderr
                    (ESC_RED ++ "Failed to open %s%s: %s\n" ++ ESC_RM)
                    [ArgS path;
                     ArgS (if flags =? O_WRONLY P then " for writing"
                           else if flags =? O_RDONLY P then " for reading"
                           else "");
                     ArgS (strerror P e)]]).
Proof.
  intros W os P o path flags w w1 w2 fd e Hopen Hfd Herr.
  unfold device_open.
  step. answer Hopen.
  rewrite (proj2 (Z.ltb_lt _ _) Hfd).
  answer Herr.
  repeat step.
  split; [reflexivity|]. split; [discriminate|]. split; reflexivity.
Qed.

Lemma open_failure_is_fatal_witness :
  exists out w' tr,
    run broken_device 8 (device_open linux opts0 "/dev/ttyS9" 1) tt
    = Some (out, w', tr)
    /\ out = Exited (-1)
    /\ tr = [LOpen "/dev/ttyS9" 1 (-1); LErrno EIO;
             LPrint stderr (ESC_RED ++ "Failed to open %s%s: %s\n" ++ ESC_RM)
               [ArgS "/dev/ttyS9"; ArgS " for writing";
                ArgS "Input/output error"]].
Proof.
  eexists _, _, _. split; [vm_compute; reflexivity|].
  destruct (halts_run
              (@open_failure_is_fatal unit broken_device linux opts0
                 "/dev/ttyS9" 1 tt tt tt (-1) EIO eq_refl eq_refl eq_refl)
              (fuel := 8%nat) eq_refl) as (Ho & _ & _ & Ht).
  split; [exact Ho | exact Ht].
Defined.

(** X5.  Whenever [device_open] returns a descriptor, under any
    operating system, its calls were, in this order: the [open]; the
    attribute query; then either [errno] read as [ENOTTY] and nothing
    more, or raw mode applied, the flow-control setting applied if one
    was asked for, [cfsetspeed] and its result applied if a speed was
    asked for, and the flush; every one of them answered 0. *)
Theorem device_open_success_path :
  forall (W : Type) (os : handler W) (P : platform) (o : opts)
         (path : string) (flags : Z) (w : W),
    halts os (device_open P o path flags) w (fun out w' tr =>
      forall fd, out = Returned fd ->
        0 <= fd
        /\ ((exists r tio,
               r <> 0
               /\ syscalls tr = [LOpen path flags fd; LTcgetattr fd r tio;
                                 LErrno (ENOTTY P)])
            \/ (exists tio tio',
                  let raw := cfmakeraw P tio in
                  let flow := flow_control P o raw in
                  syscalls tr
                  = [LOpen path flags fd; LTcgetattr fd 0 tio;
                     LTcsetattr fd (TCSANOW P) raw 0]
                    ++ (if opt_hwflow o || opt_noflow o
                        then [LTcsetattr fd (TCSANOW P) flow 0] else [])
                    ++ (if opt_speed o =? 0 then []
                        else [LCfsetspeed flow
                                (to_uint (to_int (get_speed_sym P (opt_speed o))))
                                0 tio';
                              LTcsetattr fd (TCSANOW P) tio' 0])
                    ++ [LTcflush fd (TCIOFLUSH P) 0]))).
Proof.
  intros W os P o path flags w.
  unfold device_open.
  repeat step.
  all: intros fd' Hret; try discriminate Hret.
  all: inversion Hret; subst; clear Hret.
  all: bools;
    repeat match goal with
    | H : (_ =? _) = true |- _ => apply Z.eqb_eq in H; subst
    | H : (_ <? 0) = false |- _ => apply Z.ltb_ge in H
    end.
  all: split; [assumption|].
  all: unfold debug, syscalls, flow_control;
    destruct (opt_verbose o), (opt_hwflow o) eqn:Hhw, (opt_noflow o) eqn:Hno;
    try discriminate;
    repeat match goal with
    | H : (opt_speed _ =? 0) = _ |- _ => rewrite H
    | H : opt_speed _ = 0 |- _ => rewrite H
    end;
    cbn -[get_speed_sym to_int to_uint].
  all: first
    [ left; eexists _, _; split; [|reflexivity];
      match goal with
      | H : (_ =? 0) = false |- _ => apply Z.eqb_neq in H; exact H
      end
    | match goal with
      | t : termios |- _ => right; exists t, t; reflexivity
      end
    | right; eexists _, _; reflexivity ].
Qed.

Section Bits.

Lemma uint_bits_high (a i : Z) :
  0 <= a < 4294967296 -> 32 <= i -> Z.testbit a i = false.
Proof.
  intros Ha Hi.
  rewrite <- (Z.mod_small a (2 ^ 32))
    by (change (2 ^ 32) with 4294967296; lia).
  apply Z.mod_pow2_bits_high. lia.
Qed.

Lemma uint_of_bits (a : Z) :
  (forall i, 32 <= i -> Z.testbit a i = false) -> 0 <= a < 4294967296.
Proof.
  intros H.
  assert (E : a = a mod 2 ^ 32).
  { apply Z.bits_inj'. intros i Hi. rewrite Z.testbit_mod_pow2 by lia.
    destruct (i <? 32) eqn:Hlt; [reflexivity|].
    apply Z.ltb_ge in Hlt. cbn. apply H, Hlt. }
  rewrite E. change 4294967296 with (2 ^ 32). apply Z.mod_pos_bound. lia.
Qed.

Lemma to_uint_lnot_bits (a i : Z) :
  0 <= i ->
  Z.testbit (to_uint (Z.lnot a)) i = (i <? 32) && negb (Z.testbit a i).
Proof.
  intros Hi. unfold to_uint. change 4294967296 with (2 ^ 32).
  rewrite Z.testbit_mod_pow2, Z.lnot_spec by lia. reflexivity.
Qed.

End Bits.

(** X6.  The flow-control step sets every bit of [CRTSCTS] in
    [c_cflag] under [-f], clears every one of them under [-n] alone,
    and leaves every other bit of [c_cflag], its 32-bit range and every
    other member of the structure as they were. *)
Theorem flow_control_touches_only_crtscts :
  forall (P : platform) (o : opts) (t : termios),
    0 <= CRTSCTS P < 4294967296 ->
    0 <= c_cflag t < 4294967296 ->
    (forall i, 0 <= i ->
       Z.testbit (c_cflag (flow_control P o t)) i
       = if Z.testbit (CRTSCTS P) i
         then opt_hwflow o || negb (opt_noflow o) && Z.testbit (c_cflag t) i
         else Z.testbit (c_cflag t) i)
    /\ 0 <= c_cflag (flow_control P o t) < 4294967296
    /\ set_c_cflag (flow_control P o t) (c_cflag t) = t.
Proof.
  intros P o t Hc Ht.
  assert (Hbits : forall i, 0 <= i ->
     Z.testbit (c_cflag (flow_control P o t)) i
     = if Z.testbit (CRTSCTS P) i
       then opt_hwflow o || negb (opt_noflow o) && Z.testbit (c_cflag t) i
       else Z.testbit (c_cflag t) i).
  { intros i Hi. unfold flow_control.
    destruct (opt_hwflow o); [|destruct (opt_noflow o)];
      cbn [c_cflag set_c_cflag].
    - rewrite Z.lor_spec. destruct (Z.testbit (CRTSCTS P) i);
        [apply orb_true_r | apply orb_false_r].
    - rewrite Z.land_spec, to_uint_lnot_bits by exact Hi.
      destruct (i <? 32) eqn:Hlt.
      + destruct (Z.testbit (CRTSCTS P) i); cbn;
          [apply andb_false_r | apply andb_true_r].
      + apply Z.ltb_ge in Hlt.
        rewrite (uint_bits_high Ht Hlt), (uint_bits_high Hc Hlt). reflexivity.
    - destruct (Z.testbit (CRTSCTS P) i); reflexivity. }
  split; [exact Hbits|]. split.
  - apply uint_of_bits. intros i Hi. rewrite Hbits by lia.
    rewrite (uint_bits_high Hc Hi). apply (uint_bits_high Ht Hi).
  - unfold flow_control.
    destruct (opt_hwflow o); [|destruct (opt_noflow o)]; destruct t;
      reflexivity.
Qed.

Lemma flow_control_touches_only_crtscts_witness :
  c_cflag (flow_control linux (set_hwflow opts0) raw0) = 2147483839
  /\ c_cflag (flow_control linux (set_noflow opts0)
                (flow_control linux (set_hwflow opts0) raw0)) = c_cflag raw0
  /\ Z.testbit (c_cflag (flow_control linux (set_hwflow opts0) raw0)) 31 = true.
Proof.
  split; [reflexivity|]. split; [reflexivity|].
  assert (Hc : 0 <= CRTSCTS linux < 4294967296) by (cbn; lia).
  assert (Ht : 0 <= c_cflag raw0 < 4294967296) by (cbn; lia).
  exact (proj1 (@flow_control_touches_only_crtscts linux (set_hwflow opts0)
                  raw0 Hc Ht) 31 ltac:(lia)).
Defined.

Lemma to_int_code (x : Z) :
  0 <= x < UINT_MAX -> (to_int x =? -1) = false.
Proof.
  unfold UINT_MAX. intros H. apply Z.eqb_neq. unfold to_int.
  rewrite Z.mod_small by lia. destruct (x <? 2147483648) eqn:E.
  - apply Z.ltb_lt in E. lia.
  - apply Z.ltb_ge in E. lia.
Qed.

Lemma bps_nonzero (b : baud) : b <> B0 -> (bps b =? 0) = false.
Proof. destruct b; intros H; [contradiction|..]; reflexivity. Qed.

(** X7.  A rate whose row is compiled in, other than 0, whose macro a
    32-bit value other than the not-found value stands for, is never
    reported as unknown: [device_open] passes just that macro's value to
    every [cfsetspeed] it calls, and it calls one before it returns the
    descriptor of a terminal. *)
Theorem supported_speed_is_applied :
  forall (W : Type) (os : handler W) (P : platform) (o : opts)
         (path : string) (flags : Z) (w : W) (b : baud),
    compiled P b = true ->
    opt_speed o = bps b ->
    b <> B0 ->
    0 <= code P b < UINT_MAX ->
    halts os (device_open P o path flags) w (fun out w' tr =>
      existsb (printed (ESC_RED ++ "Unknown serial speed %u\n" ++ ESC_RM)) tr
      = false
      /\ (forall t s r t', In (LCfsetspeed t s r t') tr -> s = code P b)
      /\ (forall fd, out = Returned fd -> existsb tty_found tr = true ->
          existsb (sets_speed (code P b)) tr = true)).
Proof.
  intros W os P o path flags w b Hc Hs Hb Hr.
  unfold device_open.
  rewrite Hs, (get_speed_sym_compiled P b Hc), (bps_nonzero Hb),
    (to_int_code Hr).
  rewrite to_uint_to_int by (unfold UINT_MAX in Hr; lia).
  cbn [negb].
  repeat step.
  all: finish o.
  all: rewrite ?Z.eqb_refl.
  all: split; [reflexivity|]; split;
    [ intros t' s' r' t'' Hin;
      repeat (destruct Hin as [Hin|Hin];
              [first [discriminate Hin | inversion Hin; reflexivity]|]);
      contradiction
    | intros fd' Hret Htty;
      first [discriminate Hret | discriminate Htty
            | rewrite ?orb_true_r; reflexivity] ].
Qed.

Lemma supported_speed_is_applied_witness :
  exists out w' tr,
    run sim_os 64 (device_open linux (set_speed opts0 115200) "/dev/ttyS0" 1)
      (tty_world hello None) = Some (out, w', tr)
    /\ out = Returned 3
    /\ existsb (sets_speed 4098) tr = true.
Proof.
  eexists _, _, _. split; [vm_compute; reflexivity|].
  assert (Hb : B115200 <> B0) by discriminate.
  assert (Hr : 0 <= code linux B115200 < UINT_MAX)
    by (vm_compute; split; [discriminate | reflexivity]).
  destruct (halts_run
              (@supported_speed_is_applied sim sim_os linux
                 (set_speed opts0 115200) "/dev/ttyS0" 1 (tty_world hello None)
                 B115200 eq_refl eq_refl Hb Hr)
              (fuel := 64%nat) eq_refl) as (_ & _ & Hx).
  split; [reflexivity|]. exact (Hx 3 eq_refl eq_refl).
Defined.

(** X8.  Under any operating system [device_open] ends: either it
    returns, and then it has written nothing to [stderr], or it leaves
    through [exit(-1)], and then its last act was an error message in
    red on [stderr], the only thing it wrote there. *)
Theorem device_open_failures_are_reported :
  forall (W : Type) (os : handler W) (P : platform) (o : opts)
         (path : string) (flags : Z) (w : W),
    halts os (device_open P o path flags) w (fun out w' tr =>
      match out with
      | Returned fd => existsb on_stderr tr = false
      | Exited s =>
        s = -1
        /\ List.length (filter on_stderr tr) = 1%nat
        /\ exists fmt args,
            final tr = Some (LPrint stderr (ESC_RED ++ fmt ++ ESC_RM) args)
      end).
Proof.
  intros W os P o path flags w.
  unfold device_open.
  repeat step.
  all: unfold debug; destruct (opt_verbose o).
  all: first
    [ reflexivity
    | split; [reflexivity|]; split; [reflexivity|];
      eexists _, _; cbn [app final rev hd_error]; reflexivity ].
Qed.

(** X9.  Under any operating system the first call of [device_open] is
    the [open] of the path and flags it was given, and every later call
    that takes a descriptor takes the one this [open] answered: the
    attributes are set with [TCSANOW], the flush is of both queues, and
    nothing is read, written or closed.  A descriptor returned is that
    one, and not negative. *)
Theorem device_open_uses_its_descriptor :
  forall (W : Type) (os : handler W) (P : platform) (o : opts)
         (path : string) (flags : Z) (w : W),
    halts os (device_open P o path flags) w (fun out w' tr =>
      exists fd0,
        hd_error (syscalls tr) = Some (LOpen path flags fd0)
        /\ forallb (device_call P path flags fd0) tr = true
        /\ forall fd, out = Returned fd -> fd = fd0 /\ 0 <= fd).
Proof.
  intros W os P o path flags w.
  unfold device_open.
  repeat step.
  all: match goal with
       | H : _ _ (Open _ _) _ = (_, ?fd) |- _ => exists fd
       end.
  all: unfold debug; destruct (opt_verbose o).
  all: cbn -[get_speed_sym get_speed_val to_int to_uint];
    rewrite ?Z.eqb_refl, ?String.eqb_refl.
  all: split; [reflexivity|]; split; [reflexivity|].
  all: intros fd' Hret; try discriminate Hret.
  all: inversion Hret; subst; split; [reflexivity|].
  all: match goal with
       | H : (_ <? 0) = false |- _ => apply Z.ltb_ge in H; exact H
       end.
Qed.

(* ===================================================================== *)
(** * Further properties of the relay loop *)
(* ===================================================================== *)

Lemma reads_app (rx : Z) (tr1 tr2 : list entry) :
  reads rx (tr1 ++ tr2) = reads rx tr1 ++ reads rx tr2.
Proof. apply flat_map_app. Qed.

Section RelayMore.

Context {W : Type} (os : handler W) (P : platform).

(** A failing [read] ends the loop at once. *)
Lemma halts_read_error (rx tx : Z) (w w1 w2 : W) (buf d : list byte)
    (n e : Z) :
  @os _ (Read rx BUF_SIZE) w = (w1, (n, d)) ->
  n < 0 ->
  @os _ Errno w1 = (w2, e) ->
  halts os (ITree.iter (relay_turn P rx tx) buf) w (fun res w' tr =>
    res = Exited (-1) /\ w' = w2
    /\ tr = [LRead rx BUF_SIZE n d; LErrno e;
             LPrint stderr (ESC_RED ++ "Read error: %s\n" ++ ESC_RM)
               [ArgS (strerror P e)]]).
Proof.
  intros Hr Hn He.
  apply halts_iter. unfold relay_turn at 1.
  step. answer Hr.
  destruct (n =? 0) eqn:E0; [apply Z.eqb_eq in E0; lia|].
  destruct (n <? 0) eqn:E1; [|apply Z.ltb_ge in E1; lia].
  step. answer He.
  step. step. step. cbn. auto.
Qed.

(** A failing [write] ends the loop at once. *)
Lemma halts_write_error (rx tx : Z) (w w1 w2 w3 : W) (buf d : list byte)
    (n out e : Z) :
  @os _ (Read rx BUF_SIZE) w = (w1, (n, d)) ->
  0 < n ->
  @os _ (Write tx (firstn (Z.to_nat n) (store buf d))) w1 = (w2, out) ->
  out < 0 ->
  @os _ Errno w2 = (w3, e) ->
  halts os (ITree.iter (relay_turn P rx tx) buf) w (fun res w' tr =>
    res = Exited (-1) /\ w' = w3
    /\ tr = [LRead rx BUF_SIZE n d;
             LWrite tx (firstn (Z.to_nat n) (store buf d)) out; LErrno e;
             LPrint stderr (ESC_RED ++ "Write error: %s\n" ++ ESC_RM)
               [ArgS (strerror P e)]]).
Proof.
  intros Hr Hn Hw Hout He.
  apply halts_iter. unfold relay_turn at 1.
  step. answer Hr.
  destruct (n =? 0) eqn:E0; [apply Z.eqb_eq in E0; lia|].
  destruct (n <? 0) eqn:E1; [apply Z.ltb_lt in E1; lia|].
  step. answer Hw.
  destruct (out <? 0) eqn:E2; [|apply Z.ltb_ge in E2; lia].
  step. answer He.
  step. step. step. cbn. auto.
Qed.

(** One turn either goes round again, as [turns] has it, or is a
    [last_turn]. *)
Lemma relay_turn_cases (rx tx : Z) (buf : list byte) (w : W) :
  halts os (relay_turn P rx tx buf) w (fun out w' tr =>
    (exists n d w1 outw,
        @os _ (Read rx BUF_SIZE) w = (w1, (n, d))
        /\ 0 < n
        /\ @os _ (Write tx (firstn (Z.to_nat n) (store buf d))) w1 = (w', outw)
        /\ n <= outw
        /\ out = Returned (inl (store buf d))
        /\ tr = [LRead rx BUF_SIZE n d;
                 LWrite tx (firstn (Z.to_nat n) (store buf d)) outw])
    \/ (exists out1,
          last_turn os P rx tx w buf tr out1 w'
          /\ match out1 with
             | Returned _ => out = Returned (inr tt)
             | Exited s => out = Exited s
             end)).
Proof.
  unfold relay_turn.
  repeat step.
  all: repeat match goal with
       | H : (_ =? 0) = true |- _ => apply Z.eqb_eq in H; subst
       | H : (_ =? 0) = false |- _ => apply Z.eqb_neq in H
       | H : (_ <? _) = true |- _ => apply Z.ltb_lt in H
       | H : (_ <? _) = false |- _ => apply Z.ltb_ge in H
       end.
  - right. exists (Returned tt). split; [|reflexivity].
    eapply end_of_input; eassumption.
  - right. exists (Exited (-1)). split; [|reflexivity].
    eapply read_error; eassumption.
  - right. exists (Exited (-1)). split; [|reflexivity].
    eapply write_error; try eassumption. lia.
  - right. exists (Exited (-1)). split; [|reflexivity].
    eapply short_write; try eassumption; lia.
  - left. eexists _, _, _, _. repeat split; try eassumption; lia.
Qed.

(** However long the loop runs, what it did is turns that went round
    again and then one last turn. *)
Lemma relay_loop_shape (rx tx : Z) (fuel : nat) :
  forall (w : W) (buf : list byte) out w' tr,
    run os fuel (ITree.iter (relay_turn P rx tx) buf) w = Some (out, w', tr) ->
    exists pre wl bufl post,
      turns os rx tx w buf pre wl bufl
      /\ last_turn os P rx tx wl bufl post out w'
      /\ tr = pre ++ post.
Proof.
  induction fuel as [|fuel IH]; intros w buf out w' tr H; [discriminate|].
  rewrite (run_eq_itree os (S fuel) w (unfold_iter _ _)) in H.
  apply run_bind_inv in H.
  destruct H as [[s [-> Hs]]|[r [w1 [tr1 [tr2 [Hb [Hk ->]]]]]]].
  - destruct (halts_run (relay_turn_cases rx tx buf w) Hs)
      as [(n & d & w1 & outw & _ & _ & _ & _ & Ho & _)|(out1 & Hl & Ho)];
      [discriminate Ho|].
    destruct out1; inversion Ho; subst.
    exists [], w, buf, tr. split; [apply turns_nil|].
    split; [exact Hl|reflexivity].
  - destruct (halts_run (relay_turn_cases rx tx buf w) Hb)
      as [(n & d & w0 & outw & Hr & Hn & Hw & Hout & Ho & ->)|(out1 & Hl & Ho)].
    + inversion Ho; subst r. rewrite run_S in Hk. cbn in Hk.
      destruct (IH _ _ _ _ _ Hk) as (pre & wl & bufl & post & Ht & Hl & ->).
      exists (LRead rx BUF_SIZE n d
              :: LWrite tx (firstn (Z.to_nat n) (store buf d)) outw :: pre),
             wl, bufl, post.
      split; [eapply turns_cons; eassumption|]. split; [exact Hl|reflexivity].
    + destruct out1 as [[]|s]; inversion Ho; subst r.
      rewrite run_S in Hk. cbn in Hk. inversion Hk; subst.
      exists [], w, buf, tr1. split; [apply turns_nil|].
      split; [exact Hl | rewrite app_nil_r; reflexivity].
Qed.

(** Turns that go round again write what they read, when a [read]
    delivers as many bytes as it says and no more than asked for. *)
Lemma turns_copy (rx tx : Z) (w w' : W) (buf buf' : list byte)
    (pre : list entry) :
  (forall w0 w1 n d,
      @os _ (Read rx BUF_SIZE) w0 = (w1, (n, d)) -> 0 < n ->
      n = Z.of_nat (List.length d) /\ n <= BUF_SIZE) ->
  turns os rx tx w buf pre w' buf' ->
  writes tx pre = reads rx pre.
Proof.
  intros Hconf Ht.
  induction Ht as [w buf | w w1 w2 w' buf buf' d n out tr Hr Hn Hw Hout Ht IH];
    [reflexivity|].
  destruct (Hconf _ _ _ _ Hr Hn) as [Hlen Hle].
  cbn. rewrite !Z.eqb_refl. cbn.
  rewrite (proj2 (Z.ltb_lt 0 n) Hn). cbn.
  fold (writes tx tr). fold (reads rx tr). rewrite IH.
  f_equal. rewrite Hlen, Nat2Z.id. apply store_firstn.
  apply Nat2Z.inj_le. rewrite Z2Nat.id by (unfold BUF_SIZE; lia). lia.
Qed.

End RelayMore.

(** X10.  When a [read] of the relay loop fails, after any number of
    turns that went well, the program reads [errno], reports the read
    error on [stderr] and ends with [exit(-1)]: it writes nothing more
    and closes nothing. *)
Theorem read_error_is_fatal :
  forall (W : Type) (os : handler W) (P : platform) (o : opts)
         (rx_fd tx_fd : Z) (w0 w w1 w2 : W) (buf0 buf d : list byte)
         (pre : list entry) (n e : Z),
    turns os rx_fd tx_fd w0 buf0 pre w buf ->
    os _ (Read rx_fd BUF_SIZE) w = (w1, (n, d)) ->
    n < 0 ->
    os _ Errno w1 = (w2, e) ->
    halts os (relay P o rx_fd tx_fd buf0) w0 (fun res w' tr =>
      fatal res
      /\ w' = w2
      /\ tr = pre
              ++ [LRead rx_fd BUF_SIZE n d; LErrno e;
                  LPrint stderr (ESC_RED ++ "Read error: %s\n" ++ ESC_RM)
                    [ArgS (strerror P e)]]).
Proof.
  intros W os P o rx tx w0 w w1 w2 buf0 buf d pre n e Ht Hr Hn He.
  unfold relay. apply halts_bind.
  eapply halts_turns; [exact Ht|].
  eapply halts_weaken; [eapply halts_read_error; eassumption|].
  cbn beta. intros res w' tr (-> & -> & ->).
  split; [|auto]. exists (-1). split; [reflexivity | discriminate].
Qed.

Lemma read_error_is_fatal_witness :
  halts sim_os (relay linux opts0 5 1 []) (file_world hello [])
    (fun res w' tr =>
       fatal res /\ sim_sink w' = [] /\ writes 1 tr = []
       /\ closed tr = []).
Proof.
  eapply halts_weaken.
  - apply (@read_error_is_fatal sim sim_os linux opts0 5 1
             (file_world hello []) (file_world hello [])
             (sim_fail (file_world hello []) EBADF)
             (sim_fail (file_world hello []) EBADF)
             [] [] [] [] (-1) EBADF).
    + apply turns_nil.
    + reflexivity.
    + lia.
    + reflexivity.
  - cbn beta. intros res w' tr (Hf & -> & ->). split; [exact Hf|].
    split; [reflexivity|]. split; reflexivity.
Defined.

(** X11.  When a [write] of the relay loop fails, after any number of
    turns that went well, the program reads [errno], reports the write
    error on [stderr] and ends with [exit(-1)]: it does not write
    again and closes nothing. *)
Theorem write_error_is_fatal :
  forall (W : Type) (os : handler W) (P : platform) (o : opts)
         (rx_fd tx_fd : Z) (w0 w w1 w2 w3 : W) (buf0 buf d : list byte)
         (pre : list entry) (n out e : Z),
    turns os rx_fd tx_fd w0 buf0 pre w buf ->
    os _ (Read rx_fd BUF_SIZE) w = (w1, (n, d)) ->
    0 < n ->
    os _ (Write tx_fd (firstn (Z.to_nat n) (store buf d))) w1 = (w2, out) ->
    out < 0 ->
    os _ Errno w2 = (w3, e) ->
    halts os (relay P o rx_fd tx_fd buf0) w0 (fun res w' tr =>
      fatal res
      /\ w' = w3
      /\ tr = pre
              ++ [LRead rx_fd BUF_SIZE n d;
                  LWrite tx_fd (firstn (Z.to_nat n) (store buf d)) out;
                  LErrno e;
                  LPrint stderr (ESC_RED ++ "Write error: %s\n" ++ ESC_RM)
                    [ArgS (strerror P e)]]).
Proof.
  intros W os P o rx tx w0 w w1 w2 w3 buf0 buf d pre n out e
    Ht Hr Hn Hw Hout He.
  unfold relay. apply halts_bind.
  eapply halts_turns; [exact Ht|].
  eapply halts_weaken; [eapply halts_write_error; eassumption|].
  cbn beta. intros res w' tr (-> & -> & ->).
  split; [|auto]. exists (-1). split; [reflexivity | discriminate].
Qed.

Lemma write_error_is_fatal_witness :
  halts sim_os (relay linux opts0 3 7 []) (file_world hello [])
    (fun res w' tr =>
       fatal res /\ sim_sink w' = [] /\ List.length (writes 7 tr) = 1%nat
       /\ closed tr = []).
Proof.
  eapply halts_weaken.
  - apply (@write_error_is_fatal sim sim_os linux opts0 3 7
             (file_world hello []) (file_world hello [])
             (sim_take (file_world hello []) 6)
             (sim_fail (sim_take (file_world hello []) 6) EBADF)
             (sim_fail (sim_take (file_world hello []) 6) EBADF)
             [] [] hello [] 6 (-1) EBADF).
    + apply turns_nil.
    + reflexivity.
    + lia.
    + reflexivity.
    + lia.
    + reflexivity.
  - cbn beta. intros res w' tr (Hf & -> & ->). split; [exact Hf|].
    split; [reflexivity|]. split; reflexivity.
Defined.

(** X12.  Every run of the relay loop and the shutdown that comes to an
    end, under any operating system, is a number of turns that each
    read something and wrote all of it, then one last turn: end of
    input, after which the device is closed and the status is 0, or a
    failed read, a failed write or a short write, after which the
    status is -1 and nothing is closed. *)
Theorem relay_runs_have_one_shape :
  forall (W : Type) (os : handler W) (P : platform) (o : opts)
         (rx_fd tx_fd : Z) (buf : list byte) (fuel : nat) (w w' : W)
         (out : outcome void) (tr : list entry),
    run os fuel (relay P o rx_fd tx_fd buf) w = Some (out, w', tr) ->
    exists pre wl bufl post out1 w1,
      turns os rx_fd tx_fd w buf pre wl bufl
      /\ last_turn os P rx_fd tx_fd wl bufl post out1 w1
      /\ match out1 with
         | Returned _ =>
           exists r,
             os _ (Close (if opt_write o then tx_fd else rx_fd)) w1 = (w', r)
             /\ out = Exited 0
             /\ tr = pre ++ post
                     ++ [LClose (if opt_write o then tx_fd else rx_fd) r]
         | Exited s =>
           s = -1 /\ out = Exited (-1) /\ w' = w1 /\ tr = pre ++ post
         end.
Proof.
  intros W os P o rx tx buf fuel w w' out tr H.
  unfold relay in H. apply run_bind_inv in H.
  destruct H as [[s [-> Hs]]|[[] [w1 [tr1 [tr2 [Hloop [Hend ->]]]]]]].
  - destruct (relay_loop_shape os P rx tx fuel _ _ Hs)
      as (pre & wl & bufl & post & Ht & Hl & ->).
    exists pre, wl, bufl, post, (Exited s), w'.
    split; [exact Ht|]. split; [exact Hl|].
    inversion Hl; subst; auto.
  - destruct (relay_loop_shape os P rx tx fuel _ _ Hloop)
      as (pre & wl & bufl & post & Ht & Hl & ->).
    exists pre, wl, bufl, post, (Returned tt), w1.
    split; [exact Ht|]. split; [exact Hl|].
    assert (Hclose :
      halts os (ITree.bind (sys (Close (if opt_write o then tx else rx)))
                  (fun _ => exit 0)) w1
        (fun (out : outcome void) w2 tr =>
           exists r,
             os _ (Close (if opt_write o then tx else rx)) w1 = (w2, r)
             /\ out = Exited 0
             /\ tr = [LClose (if opt_write o then tx else rx) r])).
    { repeat step. eexists. split; [eassumption|]. split; reflexivity. }
    destruct (halts_run Hclose Hend) as (r & Hc & -> & ->).
    exists r. rewrite <- app_assoc. auto.
Qed.

Lemma relay_runs_have_one_shape_witness :
  exists w' tr pre wl bufl post out1 w1,
    run sim_os 32 (relay linux opts0 3 1 []) (file_world hello [1%nat])
    = Some (Exited 0, w', tr)
    /\ turns sim_os 3 1 (file_world hello [1%nat]) [] pre wl bufl
    /\ last_turn sim_os linux 3 1 wl bufl post out1 w1
    /\ out1 = Returned tt
    /\ List.length pre = 4%nat.
Proof.
  destruct (@relay_runs_have_one_shape sim sim_os linux opts0 3 1 [] 32%nat
              (file_world hello [1%nat]) _ _ _ eq_refl)
    as (pre & wl & bufl & post & out1 & w1 & Ht & Hl & Hm).
  eexists _, _, pre, wl, bufl, post, out1, w1.
  split; [vm_compute; reflexivity|]. split; [exact Ht|]. split; [exact Hl|].
  destruct out1 as [[]|s].
  - split; [reflexivity|].
    destruct Hm as (r & _ & _ & Htr).
    apply (f_equal (@List.length entry)) in Htr.
    inversion Hl; subst; rewrite !length_app in Htr; cbn in Htr; lia.
  - destruct Hm as (_ & Ho & _). discriminate Ho.
Defined.

Lemma sim_reads_conform (rx : Z) (w0 w1 : sim) (n : Z) (d : list byte) :
  sim_os (Read rx BUF_SIZE) w0 = (w1, (n, d)) -> 0 < n ->
  n = Z.of_nat (List.length d) /\ n <= BUF_SIZE.
Proof.
  intros H Hn. destruct (Z.eqb_spec rx (sim_rx w0)) as [E|E].
  - rewrite (sim_read w0 BUF_SIZE (eq_sym E)) in H. inversion H; subst n d.
    destruct (sim_chunk_le w0 BUF_SIZE) as [Hle1 Hle2].
    rewrite length_firstn, Nat.min_l by exact Hle1.
    split; [reflexivity|]. unfold BUF_SIZE in *. lia.
  - apply Z.eqb_neq in E. unfold sim_os in H. rewrite E in H.
    inversion H; subst. lia.
Qed.

(** X13.  Under an operating system whose [read] delivers as many bytes
    as it says, no more than asked for, every run of the relay that
    comes to an end, well or badly, handed to [write], call by call,
    just the data that the [read] calls delivered. *)
Theorem relay_passes_on_what_it_reads :
  forall (W : Type) (os : handler W) (P : platform) (o : opts)
         (rx_fd tx_fd : Z) (buf : list byte) (fuel : nat) (w w' : W)
         (out : outcome void) (tr : list entry),
    (forall w0 w1 n d,
        os _ (Read rx_fd BUF_SIZE) w0 = (w1, (n, d)) -> 0 < n ->
        n = Z.of_nat (List.length d) /\ n <= BUF_SIZE) ->
    run os fuel (relay P o rx_fd tx_fd buf) w = Some (out, w', tr) ->
    writes tx_fd tr = reads rx_fd tr.
Proof.
  intros W os P o rx tx buf fuel w w' out tr Hconf H.
  unfold relay in H. apply run_bind_inv in H.
  assert (Hlast : forall wl bufl post out1 w1,
             last_turn os P rx tx wl bufl post out1 w1 ->
             writes tx post = reads rx post).
  { intros wl bufl post out1 w1 Hl.
    inversion Hl as [w2 d Hr | w2 w3 n e d Hr Hn He
                    | w2 w3 w4 n outw e d Hr Hn Hw Ho He
                    | w2 w3 n outw d Hr Hn Hw Ho]; subst; cbn;
      rewrite ?Z.eqb_refl; cbn.
    - reflexivity.
    - rewrite (proj2 (Z.ltb_ge 0 n)) by lia. reflexivity.
    - destruct (Hconf _ _ _ _ Hr Hn) as [Hlen Hle].
      rewrite (proj2 (Z.ltb_lt 0 n) Hn). cbn.
      f_equal. rewrite Hlen, Nat2Z.id. apply store_firstn.
      apply Nat2Z.inj_le. rewrite Z2Nat.id by (unfold BUF_SIZE; lia). lia.
    - destruct (Hconf _ _ _ _ Hr Hn) as [Hlen Hle].
      rewrite (proj2 (Z.ltb_lt 0 n) Hn). cbn.
      f_equal. rewrite Hlen, Nat2Z.id. apply store_firstn.
      apply Nat2Z.inj_le. rewrite Z2Nat.id by (unfold BUF_SIZE; lia). lia. }
  destruct H as [[s [-> Hs]]|[[] [w1 [tr1 [tr2 [Hloop [Hend ->]]]]]]].
  - destruct (relay_loop_shape os P rx tx fuel _ _ Hs)
      as (pre & wl & bufl & post & Ht & Hl & ->).
    rewrite writes_app, reads_app, (turns_copy Hconf Ht), (Hlast _ _ _ _ _ Hl).
    reflexivity.
  - destruct (relay_loop_shape os P rx tx fuel _ _ Hloop)
      as (pre & wl & bufl & post & Ht & Hl & ->).
    assert (Hclose :
      halts os (ITree.bind (sys (Close (if opt_write o then tx else rx)))
                  (fun _ => exit 0)) w1
        (fun (out : outcome void) w2 tr =>
           exists r, tr = [LClose (if opt_write o then tx else rx) r])).
    { repeat step. eexists. reflexivity. }
    destruct (halts_run Hclose Hend) as (r & ->).
    rewrite !writes_app, !reads_app, (turns_copy Hconf Ht),
      (Hlast _ _ _ _ _ Hl).
    reflexivity.
Qed.


Lemma relay_passes_on_what_it_reads_witness :
  exists out w' tr,
    run sim_os 16 (relay linux opts0 0 3 []) (tty_world hello (Some 2%nat))
    = Some (out, w', tr)
    /\ out = Exited (-1)
    /\ reads 0 tr = [hello]
    /\ writes 3 tr = reads 0 tr.
Proof.
  eexists _, _, _. split; [vm_compute; reflexivity|].
  split; [reflexivity|]. split; [reflexivity|].
  exact (@relay_passes_on_what_it_reads sim sim_os linux opts0 0 3 [] 16%nat
           (tty_world hello (Some 2%nat)) _ _ _
           (@sim_reads_conform 0) eq_refl).
Defined.

(* ===================================================================== *)
(** * Further properties of the option loop and of [main] *)
(* ===================================================================== *)

Section OptionsMore.

Variable P : platform.

Lemma keeps_refl (o : opts) : keeps o o.
Proof. unfold keeps. tauto. Qed.

Lemma keeps_trans (o1 o2 o3 : opts) : keeps o1 o2 -> keeps o2 o3 -> keeps o1 o3.
Proof.
  unfold keeps.
  intros (H1 & H2 & H3 & H4 & H5 & H6) (K1 & K2 & K3 & K4 & K5 & K6).
  repeat split; auto.
Qed.

Lemma parse_args_keeps_le (n : nat) :
  forall (args : list string) (o o' : opts),
    (List.length args <= n)%nat ->
    parse_args P args o = Some o' -> keeps o o'.
Proof.
  induction n as [|n IH]; intros args o o' Hlen.
  - destruct args; [|cbn in Hlen; lia]. cbn. intros H. inversion H.
    apply keeps_refl.
  - destruct args as [|a args];
      [cbn; intros H; inversion H; apply keeps_refl|].
    cbn in Hlen. cbn [parse_args].
    repeat match goal with
           | |- context [if ?c then _ else _] =>
             lazymatch c with
             | (_ || _)%bool =>
               destruct c;
               [try discriminate;
                try (intros H; apply IH in H; [|lia];
                     eapply keeps_trans; [|exact H];
                     unfold keeps; cbn; tauto)|]
             end
           end.
    + destruct args as [|v args]; [discriminate|]. cbn in Hlen.
      intros H; apply IH in H; [|lia].
      eapply keeps_trans; [|exact H]. unfold keeps; cbn; tauto.
    + destruct (opt_dev o) eqn:Hd; [discriminate|].
      intros H; apply IH in H; [|lia].
      eapply keeps_trans; [|exact H]. unfold keeps; cbn.
      rewrite Hd. repeat split; auto. discriminate.
Qed.

(** The option loop only sets flags and only names a device. *)
Lemma parse_args_keeps (args : list string) (o o' : opts) :
  parse_args P args o = Some o' -> keeps o o'.
Proof. apply (@parse_args_keeps_le (List.length args)). lia. Qed.

(** The speed given so far has no influence on how the loop goes on. *)
Lemma parse_args_set_speed_le (n : nat) :
  forall (args : list string) (o o' : opts) (v : Z),
    (List.length args <= n)%nat ->
    parse_args P args o = Some o' ->
    exists o'',
      parse_args P args (set_speed o v) = Some o''
      /\ forall v', set_speed o'' v' = set_speed o' v'.
Proof.
  induction n as [|n IH]; intros args o o' v Hlen.
  - destruct args; [|cbn in Hlen; lia]. cbn. intros H. inversion H; subst.
    eexists. split; reflexivity.
  - destruct args as [|a args];
      [cbn; intros H; inversion H; subst; eexists; split; reflexivity|].
    cbn in Hlen. cbn [parse_args].
    repeat match goal with
           | |- context [if ?c then _ else _] =>
             lazymatch c with
             | (_ || _)%bool =>
               destruct c;
               [try discriminate;
                try (intros H; apply (IH _ _ _ v) in H; [exact H | lia])|]
             end
           end.
    + destruct args as [|x args]; [discriminate|]. cbn in Hlen.
      intros H. exists o'. split; [exact H | reflexivity].
    + cbn [opt_dev set_speed]. destruct (opt_dev o) eqn:Hd; [discriminate|].
      intros H; apply (IH _ _ _ v) in H; [exact H | lia].
Qed.

Lemma is_speed_cases (a : string) :
  is_speed a = true -> a = "-s" \/ a = "--speed".
Proof.
  unfold is_speed. intros H. apply orb_true_iff in H.
  destruct H as [H|H]; apply String.eqb_eq in H; auto.
Qed.

End OptionsMore.

Section MainMore.

Context {W : Type} (os : handler W) (P : platform).

(** The three reasons for which [main] calls [usage]. *)
Lemma main_turned_down (argv : list string) (buf : list byte) (w : W) :
  (forall o, parse_args P (tl argv) opts0 = Some o ->
     opt_dev o = None
     \/ (opt_hwflow o && opt_noflow o) || (opt_read o && opt_write o) = true) ->
  halts os (main P argv buf) w (turned_down P w).
Proof.
  intros H. unfold main.
  destruct (parse_args P (tl argv) opts0) as [o|]; [|apply usage_run].
  destruct (H o eq_refl) as [Hd|Hc].
  - rewrite Hd. apply usage_run.
  - destruct (opt_dev o); [|apply usage_run]. rewrite Hc. apply usage_run.
Qed.

End MainMore.

(** X14.  Two options that exclude each other, [-f] with [-n] or [-r]
    with [-w], in either order, short or long, with anything between
    and after them, make [main] print the usage text and leave with
    status 1 before it opens anything. *)
Theorem conflicting_options_are_rejected :
  forall (W : Type) (os : handler W) (P : platform) (prog a b : string)
         (pre mid post : list string) (o0 o1 : opts) (buf : list byte)
         (w : W),
    parse_args P pre opts0 = Some o0 ->
    parse_args P (a :: mid) o0 = Some o1 ->
    clash a b = true ->
    halts os (main P (prog :: pre ++ a :: mid ++ b :: post) buf) w
      (turned_down P w).
Proof.
  intros W os P prog a b pre mid post o0 o1 buf w Hpre Hmid Hclash.
  apply main_turned_down. cbn [tl].
  change (a :: mid ++ b :: post) with ((a :: mid) ++ b :: post).
  rewrite (@parse_args_app P _ _ _ _ Hpre), (@parse_args_app P _ _ _ _ Hmid).
  intros o Ho. right.
  unfold clash, is_hwflow, is_noflow, is_read, is_write in Hclash.
  repeat match goal with
         | H : (_ || _) = true |- _ =>
           apply orb_true_iff in H; destruct H as [H|H]
         | H : (_ && _) = true |- _ => apply andb_true_iff in H; destruct H
         | H : (_ =? _)%string = true |- _ => apply String.eqb_eq in H; subst
         end.
  all: cbn [parse_args String.eqb Ascii.eqb Bool.eqb orb] in Hmid, Ho.
  all: apply parse_args_keeps in Hmid; apply parse_args_keeps in Ho.
  all: destruct Hmid as (M1 & M2 & M3 & M4 & _);
    destruct Ho as (K1 & K2 & K3 & K4 & _);
    cbn in M1, M2, M3, M4, K1, K2, K3, K4.
  all: try (rewrite K1, K2 by auto; reflexivity).
  all: rewrite K3, K4 by auto; apply orb_true_r.
Qed.

Lemma conflicting_options_are_rejected_witness :
  halts sim_os
    (main linux ["sercat"; "-v"; "-w"; "/dev/ttyS0"; "--read"; "-h"] [])
    (tty_world hello None)
    (fun out w' tr => out = Exited 1 /\ w' = tty_world hello None
                      /\ syscalls tr = []).
Proof.
  eapply halts_weaken.
  - apply (@conflicting_options_are_rejected sim sim_os linux "sercat" "-w"
             "--read" ["-v"] ["/dev/ttyS0"] ["-h"] (set_verbose opts0)
             (set_dev (set_write (set_verbose opts0)) "/dev/ttyS0") []
             (tty_world hello None)); reflexivity.
  - cbn beta. intros out w' tr (-> & -> & ->). repeat split.
Defined.

(** X15.  A second word that is not an option, met where the loop
    expects an option when a device is already named, makes [main]
    print the usage text and leave with status 1 before it opens
    anything. *)
Theorem extra_operand_is_rejected :
  forall (W : Type) (os : handler W) (P : platform) (prog a dev : string)
         (pre post : list string) (o1 : opts) (buf : list byte) (w : W),
    parse_args P pre opts0 = Some o1 ->
    opt_dev o1 = Some dev ->
    ~ In a option_strings ->
    halts os (main P (prog :: pre ++ a :: post) buf) w (turned_down P w).
Proof.
  intros W os P prog a dev pre post o1 buf w Hpre Hdev Ha.
  apply main_turned_down. cbn [tl].
  rewrite (@parse_args_app P _ _ _ _ Hpre).
  cbn [parse_args].
  repeat match goal with
         | |- context [(a =? ?s)%string] =>
           let E := fresh "E" in
           destruct (String.eqb_spec a s) as [E|E];
           [exfalso; apply Ha; rewrite E; cbn; tauto|]
         end.
  cbn [orb]. rewrite Hdev. discriminate.
Qed.

Lemma extra_operand_is_rejected_witness :
  halts sim_os
    (main linux ["sercat"; "/dev/ttyS0"; "-s"; "9600"; "/dev/ttyS1"] [])
    (tty_world hello None)
    (fun out w' tr => out = Exited 1 /\ w' = tty_world hello None).
Proof.
  eapply halts_weaken.
  - apply (@extra_operand_is_rejected sim sim_os linux "sercat" "/dev/ttyS1"
             "/dev/ttyS0" ["/dev/ttyS0"; "-s"; "9600"] []
             (set_speed (set_dev opts0 "/dev/ttyS0") 9600) []
             (tty_world hello None)).
    + reflexivity.
    + reflexivity.
    + cbn. intros H.
      repeat (destruct H as [H|H]; [discriminate H|]). exact H.
  - cbn beta. intros out w' tr (-> & -> & _). split; reflexivity.
Defined.

(** X16.  A command line of flags and speed options alone, or whose
    last word is a speed option without its value, names no device:
    [main] prints the usage text and leaves with status 1 before it
    opens anything. *)
Theorem missing_device_is_rejected :
  forall (W : Type) (os : handler W) (P : platform) (prog : string)
         (args : list string) (buf : list byte) (w : W),
    lacks_device args ->
    halts os (main P (prog :: args) buf) w (turned_down P w).
Proof.
  intros W os P prog args buf w Hl.
  apply main_turned_down. cbn [tl].
  assert (H : forall o o', opt_dev o = None ->
                           parse_args P args o = Some o' -> opt_dev o' = None).
  { induction Hl as [|a l Ha Hl IH|a v l Ha Hl IH|a Ha]; intros o o' Hd.
    - cbn. intros H. inversion H; subst. exact Hd.
    - cbn in Ha.
      repeat (destruct Ha as [<-|Ha];
              [cbn [parse_args String.eqb Ascii.eqb Bool.eqb orb];
               apply IH; exact Hd|]).
      contradiction.
    - apply is_speed_cases in Ha. rewrite (@parse_args_speed P _ _ _ _ Ha).
      apply IH. exact Hd.
    - apply is_speed_cases in Ha. destruct Ha as [->| ->]; discriminate. }
  intros o Ho. left. exact (H opts0 o eq_refl Ho).
Qed.

Lemma missing_device_is_rejected_witness :
  halts sim_os (main linux ["sercat"; "-v"; "--speed"; "9600"; "-w"] [])
    (tty_world hello None)
    (fun out w' tr => out = Exited 1 /\ w' = tty_world hello None).
Proof.
  eapply halts_weaken.
  - apply (@missing_device_is_rejected sim sim_os linux "sercat"
             ["-v"; "--speed"; "9600"; "-w"] [] (tty_world hello None)).
    apply lacks_flag; [cbn; tauto|].
    apply lacks_speed; [reflexivity|].
    apply lacks_flag; [cbn; tauto|].
    apply lacks_nil.
  - cbn beta. intros out w' tr (-> & -> & _). split; reflexivity.
Defined.

(** X17.  Of two speed options the later one decides: the earlier one
    with its value can be left out of the command line without any
    change to what [main] does. *)
Theorem last_speed_option_wins :
  forall (P : platform) (prog a1 v1 a2 v2 : string)
         (pre mid post : list string) (o0 o1 : opts) (buf : list byte),
    parse_args P pre opts0 = Some o0 ->
    parse_args P mid o0 = Some o1 ->
    is_speed a1 = true ->
    is_speed a2 = true ->
    main P (prog :: pre ++ a1 :: v1 :: mid ++ a2 :: v2 :: post) buf
    = main P (prog :: pre ++ mid ++ a2 :: v2 :: post) buf.
Proof.
  intros P prog a1 v1 a2 v2 pre mid post o0 o1 buf Hpre Hmid Ha1 Ha2.
  apply is_speed_cases in Ha1. apply is_speed_cases in Ha2.
  unfold main. cbn [tl].
  rewrite !(@parse_args_app P _ _ _ _ Hpre).
  rewrite (@parse_args_speed P _ _ _ _ Ha1).
  destruct (@parse_args_set_speed_le P (List.length mid) mid o0 o1
              (to_uint (strtoul0 P v1)) (le_n _) Hmid) as (o2 & Hmid2 & Heq).
  rewrite (@parse_args_app P _ _ _ _ Hmid2), (@parse_args_app P _ _ _ _ Hmid).
  rewrite !(@parse_args_speed P _ _ _ _ Ha2), Heq. reflexivity.
Qed.

Lemma last_speed_option_wins_witness :
  main linux ["sercat"; "-s"; "300"; "-v"; "/dev/ttyS0"; "--speed"; "9600"] []
  = main linux ["sercat"; "-v"; "/dev/ttyS0"; "--speed"; "9600"] [].
Proof.
  exact (@last_speed_option_wins linux "sercat" "-s" "300" "--speed" "9600"
           [] ["-v"; "/dev/ttyS0"] [] opts0
           (set_dev (set_verbose opts0) "/dev/ttyS0") []
           eq_refl eq_refl eq_refl eq_refl).
Defined.

Section MainRuns.

Context {W : Type} (os : handler W) (P : platform).

(** A run of [main] that comes to an end was turned down, or stopped in
    [device_open], or went through [device_open] and the relay. *)
Lemma main_run_inv (argv : list string) (buf : list byte) (fuel : nat)
    (w w' : W) (out : outcome void) (tr : list entry) :
  run os fuel (main P argv buf) w = Some (out, w', tr) ->
  turned_down P w out w' tr
  \/ exists o dev,
       parse_args P (tl argv) opts0 = Some o
       /\ opt_dev o = Some dev
       /\ (opt_hwflow o && opt_noflow o) || (opt_read o && opt_write o) = false
       /\ let flags := if opt_write o then O_WRONLY P else O_RDONLY P in
          (exists s,
              out = Exited s
              /\ run os fuel (device_open P o dev flags) w
                 = Some (Exited s, w', tr))
          \/ (exists fd w1 tr1 tr2,
                 run os fuel (device_open P o dev flags) w
                 = Some (Returned fd, w1, tr1)
                 /\ run os fuel
                      (relay P o (if opt_write o then 0 else fd)
                         (if opt_write o then fd else 1) buf) w1
                    = Some (out, w', tr2)
                 /\ tr = tr1 ++ tr2).
Proof.
  unfold main. intros H.
  destruct (parse_args P (tl argv) opts0) as [o|];
    [|left; exact (halts_run (usage_run os P w) H)].
  destruct (opt_dev o) as [dev|] eqn:Hdev;
    [|left; exact (halts_run (usage_run os P w) H)].
  destruct (opt_hwflow o && opt_noflow o || opt_read o && opt_write o) eqn:Hc;
    [left; exact (halts_run (usage_run os P w) H)|].
  right. exists o, dev. split; [reflexivity|]. split; [exact Hdev|].
  split; [exact Hc|]. cbn zeta.
  apply run_bind_inv in H.
  destruct H as [[s [-> Hs]]|[[rx tx] [w1 [tr1 [tr2 [Hopen [Hrelay ->]]]]]]].
  - left. exists s. split; [reflexivity|].
    destruct (opt_write o); apply run_bind_inv in Hs;
      destruct Hs as [[s' [Es Hs']]|[fd [w1 [tr1 [tr2 [Hd [Hret _]]]]]]];
      try (inversion Es; subst; exact Hs');
      destruct fuel; try discriminate; cbn in Hret; discriminate.
  - right.
    destruct (opt_write o); apply run_bind_inv in Hopen;
      destruct Hopen as [[s' [Es Hs']]|[fd [w0 [tr3 [tr4 [Hd [Hret ->]]]]]]];
      try discriminate;
      (destruct fuel; [discriminate|]); cbn in Hret; inversion Hret; subst;
      eexists _, _, _, _; (split; [eassumption|]); (split; [eassumption|]);
      rewrite app_nil_r; reflexivity.
Qed.

(** What [main] needs to know of [device_open]. *)
Lemma device_open_summary (o : opts) (dev : string) (w : W) :
  halts os
    (device_open P o dev (if opt_write o then O_WRONLY P else O_RDONLY P)) w
    (fun out w' tr =>
       exists fd0,
         Forall (in_direction P o dev fd0) tr
         /\ match out with
            | Returned fd => fd = fd0 /\ existsb on_stderr tr = false
            | Exited s =>
              s = -1
              /\ List.length (filter on_stderr tr) = 1%nat
              /\ exists fmt args,
                  final tr
                  = Some (LPrint stderr (ESC_RED ++ fmt ++ ESC_RM) args)
            end).
Proof.
  unfold device_open.
  repeat step.
  all: match goal with
       | H : _ _ (Open _ _) _ = (_, ?fd) |- _ => exists fd
       end.
  all: unfold debug; destruct (opt_verbose o).
  all: split;
    [ cbn [app record_call]; repeat constructor
    | first
        [ split; reflexivity
        | split; [reflexivity|]; split; [reflexivity|];
          eexists _, _; cbn [app final rev hd_error]; reflexivity ] ].
Qed.

Lemma turns_in_direction (o : opts) (dev : string) (fd rx tx : Z)
    (w w' : W) (buf buf' : list byte) (pre : list entry) :
  rx = (if opt_write o then 0 else fd) ->
  tx = (if opt_write o then fd else 1) ->
  turns os rx tx w buf pre w' buf' ->
  Forall (in_direction P o dev fd) pre /\ filter on_stderr pre = [].
Proof.
  intros Hrx Htx Ht.
  induction Ht as [w buf | w w1 w2 w' buf buf' d n out tr Hr Hn Hw Hout Ht IH].
  - split; [constructor | reflexivity].
  - destruct IH as [IH1 IH2]. split; [|exact IH2].
    constructor; [cbn; auto|]. constructor; [cbn; auto|]. exact IH1.
Qed.

Lemma last_turn_in_direction (o : opts) (dev : string) (fd rx tx : Z)
    (w w' : W) (buf : list byte) (post : list entry) (out : outcome unit) :
  rx = (if opt_write o then 0 else fd) ->
  tx = (if opt_write o then fd else 1) ->
  last_turn os P rx tx w buf post out w' ->
  Forall (in_direction P o dev fd) post
  /\ match out with
     | Returned _ => filter on_stderr post = []
     | Exited s =>
       s = -1
       /\ List.length (filter on_stderr post) = 1%nat
       /\ exists fmt args,
           final post = Some (LPrint stderr (ESC_RED ++ fmt ++ ESC_RM) args)
     end.
Proof.
  intros Hrx Htx Hl.
  inversion Hl; subst; (split; [repeat constructor; cbn; auto|]).
  - reflexivity.
  - split; [reflexivity|]. split; [reflexivity|]. eexists _, _. reflexivity.
  - split; [reflexivity|]. split; [reflexivity|]. eexists _, _. reflexivity.
  - split; [reflexivity|]. split; [reflexivity|]. eexists _, _. reflexivity.
Qed.

(** What [main] needs to know of the relay. *)
Lemma relay_summary (o : opts) (dev : string) (fd : Z) (buf : list byte)
    (fuel : nat) (w w' : W) (out : outcome void) (tr : list entry) :
  run os fuel
    (relay P o (if opt_write o then 0 else fd) (if opt_write o then fd else 1)
       buf) w
  = Some (out, w', tr) ->
  Forall (in_direction P o dev fd) tr
  /\ ((out = Exited 0 /\ filter on_stderr tr = []
       /\ exists r, final tr = Some (LClose fd r))
      \/ (out = Exited (-1)
          /\ List.length (filter on_stderr tr) = 1%nat
          /\ exists fmt args,
              final tr = Some (LPrint stderr (ESC_RED ++ fmt ++ ESC_RM) args))).
Proof.
  intros H. unfold relay in H. apply run_bind_inv in H.
  destruct H as [[s [-> Hs]]|[[] [w1 [tr1 [tr2 [Hloop [Hend ->]]]]]]].
  - destruct (relay_loop_shape os P _ _ fuel _ _ Hs)
      as (pre & wl & bufl & post & Ht & Hl & ->).
    destruct (turns_in_direction o dev fd eq_refl eq_refl Ht) as [Hp1 Hp2].
    destruct (last_turn_in_direction o dev fd eq_refl eq_refl Hl)
      as [Hq1 (-> & Hq2 & fmt & args & Hq3)].
    split; [apply Forall_app; split; assumption|].
    right. split; [reflexivity|].
    split; [rewrite filter_app, Hp2; exact Hq2|].
    exists fmt, args. unfold final in *. rewrite rev_app_distr.
    destruct (rev post); [discriminate|exact Hq3].
  - destruct (relay_loop_shape os P _ _ fuel _ _ Hloop)
      as (pre & wl & bufl & post & Ht & Hl & ->).
    destruct (turns_in_direction o dev fd eq_refl eq_refl Ht) as [Hp1 Hp2].
    destruct (last_turn_in_direction o dev fd eq_refl eq_refl Hl)
      as [Hq1 Hq2].
    assert (Hclose :
      halts os (ITree.bind
                  (sys (Close (if opt_write o
                               then if opt_write o then fd else 1
                               else if opt_write o then 0 else fd)))
                  (fun _ => exit 0)) w1
        (fun (out : outcome void) w2 tr =>
           out = Exited 0 /\ exists r, tr = [LClose fd r])).
    { repeat step. split; [reflexivity|]. eexists.
      destruct (opt_write o); reflexivity. }
    destruct (halts_run Hclose Hend) as (-> & r & ->).
    split.
    + apply Forall_app; split; [apply Forall_app; split; assumption|].
      repeat constructor.
    + left. split; [reflexivity|].
      split; [rewrite !filter_app, Hp2, Hq2; reflexivity|].
      exists r. apply final_snoc.
Qed.

End MainRuns.

(** X18.  Whatever the operating system answers, a run of [main] that
    comes to an end has opened only the device named on the command
    line, write-only under [-w] and read-only otherwise; every terminal
    call and the one [close] are on the descriptor that [open] gave;
    under [-w] it reads standard input and writes the device, otherwise
    it reads the device and writes standard output; and every [read]
    asks for [BUF_SIZE] bytes. *)
Theorem main_relays_in_the_chosen_direction :
  forall (W : Type) (os : handler W) (P : platform) (argv : list string)
         (buf : list byte) (fuel : nat) (w w' : W) (out : outcome void)
         (tr : list entry) (o : opts) (dev : string),
    run os fuel (main P argv buf) w = Some (out, w', tr) ->
    parse_args P (tl argv) opts0 = Some o ->
    opt_dev o = Some dev ->
    exists fd, Forall (in_direction P o dev fd) tr.
Proof.
  intros W os P argv buf fuel w w' out tr o dev H Hparse Hdev.
  apply main_run_inv in H.
  destruct H as [(_ & _ & ->)|(o' & dev' & Hp & Hd & _ & H)].
  { exists 0. repeat constructor. }
  rewrite Hparse in Hp. inversion Hp; subst o'.
  rewrite Hdev in Hd. inversion Hd; subst dev'.
  cbn zeta in H.
  destruct H as [(s & -> & Hs)|(fd & w1 & tr1 & tr2 & Hopen & Hrelay & ->)].
  - destruct (halts_run (device_open_summary os P o dev w) Hs)
      as (fd0 & Hf & _).
    exists fd0. exact Hf.
  - destruct (halts_run (device_open_summary os P o dev w) Hopen)
      as (fd0 & Hf & -> & _).
    exists fd0. apply Forall_app. split; [exact Hf|].
    exact (proj1 (@relay_summary _ os P o dev fd0 _ _ _ _ _ _ Hrelay)).
Qed.

Lemma main_relays_in_the_chosen_direction_witness :
  exists out w' tr fd,
    run sim_os 64 (main linux ["sercat"; "-w"; "/dev/ttyS0"] [])
      (tty_world hello None) = Some (out, w', tr)
    /\ Forall (in_direction linux (set_dev (set_write opts0) "/dev/ttyS0")
                 "/dev/ttyS0" fd) tr
    /\ writes fd tr = [hello].
Proof.
  destruct (@main_relays_in_the_chosen_direction sim sim_os linux
              ["sercat"; "-w"; "/dev/ttyS0"] [] 64%nat (tty_world hello None)
              _ _ _ (set_dev (set_write opts0) "/dev/ttyS0") "/dev/ttyS0"
              eq_refl eq_refl eq_refl) as [fd Hf].
  eexists _, _, _, fd. split; [vm_compute; reflexivity|].
  split; [exact Hf|].
  assert (Hfd : fd = 3).
  { apply Forall_inv in Hf. cbn in Hf. symmetry. apply Hf. }
  rewrite Hfd. reflexivity.
Defined.

(** X19.  A run of [main] that comes to an end leaves with one of three
    statuses.  With 0 nothing was written to [stderr] and the last call
    was the [close].  With 1 the usage text is all that happened.  With
    -1 one error message in red was written to [stderr], as the last
    act.  The parent process sees the latter two as failures. *)
Theorem main_exit_statuses :
  forall (W : Type) (os : handler W) (P : platform) (argv : list string)
         (buf : list byte) (fuel : nat) (w w' : W) (out : outcome void)
         (tr : list entry),
    run os fuel (main P argv buf) w = Some (out, w', tr) ->
    wait_status 1 <> 0 /\ wait_status (-1) <> 0
    /\ ((out = Exited 0
         /\ filter on_stderr tr = []
         /\ exists fd r, final tr = Some (LClose fd r))
        \/ (out = Exited 1
            /\ w' = w
            /\ tr = [LPrint stderr usage_text [ArgS (getprogname P)]])
        \/ (out = Exited (-1)
            /\ List.length (filter on_stderr tr) = 1%nat
            /\ exists fmt args,
                final tr
                = Some (LPrint stderr (ESC_RED ++ fmt ++ ESC_RM) args))).
Proof.
  intros W os P argv buf fuel w w' out tr H.
  split; [discriminate|]. split; [discriminate|].
  apply main_run_inv in H.
  destruct H as [Hu|(o & dev & Hp & Hd & _ & H)].
  { right. left. exact Hu. }
  cbn zeta in H.
  destruct H as [(s & -> & Hs)|(fd & w1 & tr1 & tr2 & Hopen & Hrelay & ->)].
  - destruct (halts_run (device_open_summary os P o dev w) Hs)
      as (fd0 & _ & -> & Hn & Hf).
    right. right. auto.
  - destruct (halts_run (device_open_summary os P o dev w) Hopen)
      as (fd0 & _ & -> & Hq).
    assert (Hq' : filter on_stderr tr1 = []).
    { clear - Hq. induction tr1 as [|e l IH]; [reflexivity|].
      cbn in Hq |- *. destruct (on_stderr e); [discriminate|]. auto. }
    destruct (@relay_summary _ os P o dev fd0 _ _ _ _ _ _ Hrelay)
      as [_ [(-> & Hn & r & Hf)|(-> & Hn & fmt & args & Hf)]].
    + left. split; [reflexivity|].
      split; [rewrite filter_app, Hq', Hn; reflexivity|].
      exists fd0, r. unfold final in *. rewrite rev_app_distr.
      destruct (rev tr2); [discriminate | exact Hf].
    + right. right. split; [reflexivity|].
      split; [rewrite filter_app, Hq'; exact Hn|].
      exists fmt, args. unfold final in *. rewrite rev_app_distr.
      destruct (rev tr2); [discriminate | exact Hf].
Qed.

Lemma main_exit_statuses_witness :
  exists w' tr,
    run sim_os 64 (main linux ["sercat"; "-s"; "12345"; "/dev/ttyS0"] [])
      (tty_world hello None) = Some (Exited (-1), w', tr)
    /\ List.length (filter on_stderr tr) = 1%nat.
Proof.
  eexists _, _. split; [vm_compute; reflexivity|].
  destruct (@main_exit_statuses sim sim_os linux
              ["sercat"; "-s"; "12345"; "/dev/ttyS0"] [] 64%nat
              (tty_world hello None) _ _ _ eq_refl)
    as (_ & _ & [(Ho & _)|[(Ho & _)|(_ & Hn & _)]]);
    [discriminate Ho | discriminate Ho | exact Hn].
Defined.

(* ===================================================================== *)
(** * Verbose mode *)
(* ===================================================================== *)

Lemma but_stdout_app (l1 l2 : list entry) :
  but_stdout (l1 ++ l2) = but_stdout l1 ++ but_stdout l2.
Proof. apply filter_app. Qed.

(** A step of a second run of the same code: a branch that the first
    run has decided is taken the same way. *)
Ltac step_again :=
  lazymatch goal with
  | |- halts _ (ITree.bind (if ?b then _ else _) _) _ _ =>
    destruct b eqn:?; try congruence
  | |- halts _ (if ?b then _ else _) _ _ =>
    destruct b eqn:?; try congruence
  | _ => step
  end.

Section Verbose.

Context {W : Type} (os : handler W) (P : platform).

Lemma same_but_verbose_sym (o o' : opts) :
  same_but_verbose o o' -> same_but_verbose o' o.
Proof. unfold same_but_verbose. intuition congruence. Qed.

Lemma parsed_alike_sym (r r' : option opts) :
  parsed_alike r r' -> parsed_alike r' r.
Proof.
  destruct r, r'; cbn; auto using same_but_verbose_sym.
Qed.

Lemma parse_args_alike_le (n : nat) :
  forall (args : list string) (o o' : opts),
    (List.length args <= n)%nat ->
    same_but_verbose o o' ->
    parsed_alike (parse_args P args o) (parse_args P args o').
Proof.
  induction n as [|n IH]; intros args o o' Hlen Hs.
  - destruct args; [|cbn in Hlen; lia]. exact Hs.
  - destruct args as [|a args]; [exact Hs|].
    cbn in Hlen. cbn [parse_args].
    repeat match goal with
           | |- context [if ?c then _ else _] =>
             lazymatch c with
             | (_ || _)%bool =>
               destruct c;
               [try exact I;
                try (apply IH; [lia|];
                     unfold same_but_verbose in *; cbn; tauto)|]
             end
           end.
    + destruct args as [|v args]; [exact I|]. cbn in Hlen.
      apply IH; [lia|]. unfold same_but_verbose in *; cbn; tauto.
    + destruct Hs as (Hd & Hs).
      rewrite <- Hd. destruct (opt_dev o); [exact I|].
      apply IH; [lia|]. unfold same_but_verbose in *; cbn; tauto.
Qed.

(** [device_open] does the same with and without [opt_verbose], but
    for what it prints on [stdout]. *)
Lemma device_open_but_stdout (o o' : opts) (path : string) (flags : Z)
    (w : W) :
  same_but_verbose o o' ->
  halts os (device_open P o path flags) w (fun out w1 tr =>
    halts os (device_open P o' path flags) w (fun out' w1' tr' =>
      out' = out /\ w1' = w1 /\ but_stdout tr' = but_stdout tr)).
Proof.
  intros (_ & Hs & _ & _ & Hh & Hn).
  unfold device_open. rewrite <- Hs, <- Hh, <- Hn.
  repeat step_again.
  all: unfold debug; destruct (opt_verbose o), (opt_verbose o').
  all: split; [reflexivity|]; split; reflexivity.
Qed.

Lemma run_bind_but_stdout {R T} (t t' : itree E R) (k : R -> itree E T)
    (fuel : nat) (w w' : W) (out : outcome T) (tr : list entry) :
  (forall f o1 w1 tr1,
      run os f t w = Some (o1, w1, tr1) ->
      exists f' tr1',
        run os f' t' w = Some (o1, w1, tr1')
        /\ but_stdout tr1' = but_stdout tr1) ->
  run os fuel (ITree.bind t k) w = Some (out, w', tr) ->
  exists f' tr',
    run os f' (ITree.bind t' k) w = Some (out, w', tr')
    /\ but_stdout tr' = but_stdout tr.
Proof.
  intros H Hr. apply run_bind_inv in Hr.
  destruct Hr as [[s [-> Hs]]|[r [w1 [tr1 [tr2 [Ht [Hk ->]]]]]]].
  - destruct (H _ _ _ _ Hs) as (f' & tr1' & Hr' & Hb).
    exists f', tr1'. split; [apply run_bind_exit, Hr' | exact Hb].
  - destruct (H _ _ _ _ Ht) as (f' & tr1' & Hr' & Hb).
    exists (f' + fuel)%nat, (tr1' ++ tr2).
    split; [eapply run_bind; eassumption|].
    rewrite !but_stdout_app, Hb. reflexivity.
Qed.

(** Command lines whose options agree up to [opt_verbose] make [main]
    do the same, but for what it prints on [stdout]. *)
Lemma main_but_stdout (argv argv' : list string) (buf : list byte)
    (fuel : nat) (w w' : W) (out : outcome void) (tr : list entry) :
  parsed_alike (parse_args P (tl argv) opts0) (parse_args P (tl argv') opts0) ->
  run os fuel (main P argv buf) w = Some (out, w', tr) ->
  exists fuel' tr',
    run os fuel' (main P argv' buf) w = Some (out, w', tr')
    /\ but_stdout tr' = but_stdout tr.
Proof.
  unfold main, parsed_alike.
  destruct (parse_args P (tl argv) opts0) as [o|],
           (parse_args P (tl argv') opts0) as [o'|];
    try contradiction; [|intros _ H; exists fuel, tr; auto].
  intros Hs. pose proof Hs as (Hd & _ & Hr & Hw & Hh & Hn).
  rewrite <- Hd, <- Hr, <- Hw, <- Hh, <- Hn.
  destruct (opt_dev o) as [dev|]; [|intros H; exists fuel, tr; auto].
  destruct (opt_hwflow o && opt_noflow o || opt_read o && opt_write o);
    [intros H; exists fuel, tr; auto|].
  unfold relay. rewrite <- Hw.
  apply run_bind_but_stdout.
  intros f o1 w1 tr1.
  destruct (opt_write o); apply run_bind_but_stdout; clear f o1 w1 tr1;
    intros f o1 w1 tr1 Hrun;
    destruct (halts_run (device_open_but_stdout _ _ w Hs) Hrun)
      as (f' & out' & w1' & tr1' & Hrun' & -> & -> & Hb);
    exists f', tr1'; auto.
Qed.

End Verbose.

(** X20.  Verbose mode changes nothing but what is printed on
    [stdout]: with [-v] or [--verbose] put in or left out where an
    option is expected, a run of [main] that comes to an end makes the
    same calls with the same answers, writes the same to [stderr] and
    leaves with the same status and the same state of the system. *)
Theorem verbose_only_adds_output :
  forall (W : Type) (os : handler W) (P : platform) (prog v : string)
         (pre post : list string) (o1 : opts) (buf : list byte),
    parse_args P pre opts0 = Some o1 ->
    v = "-v" \/ v = "--verbose" ->
    (forall fuel w out w' tr,
        run os fuel (main P (prog :: pre ++ post) buf) w = Some (out, w', tr) ->
        exists fuel' tr',
          run os fuel' (main P (prog :: pre ++ v :: post) buf) w
          = Some (out, w', tr')
          /\ but_stdout tr' = but_stdout tr)
    /\ (forall fuel w out w' tr,
           run os fuel (main P (prog :: pre ++ v :: post) buf) w
           = Some (out, w', tr) ->
           exists fuel' tr',
             run os fuel' (main P (prog :: pre ++ post) buf) w
             = Some (out, w', tr')
             /\ but_stdout tr' = but_stdout tr).
Proof.
  intros W os P prog v pre post o1 buf Hpre Hv.
  assert (Ha : parsed_alike
                 (parse_args P (tl (prog :: pre ++ post)) opts0)
                 (parse_args P (tl (prog :: pre ++ v :: post)) opts0)).
  { cbn [tl]. rewrite !(@parse_args_app P _ _ _ _ Hpre).
    replace (parse_args P (v :: post) o1)
      with (parse_args P post (set_verbose o1))
      by (destruct Hv as [->| ->]; reflexivity).
    apply (@parse_args_alike_le P (List.length post)); [lia|].
    unfold same_but_verbose. cbn. tauto. }
  split; intros fuel w out w' tr H.
  - exact (@main_but_stdout _ os P _ _ _ _ _ _ _ _ Ha H).
  - exact (@main_but_stdout _ os P _ _ _ _ _ _ _ _
             (@parsed_alike_sym _ _ Ha) H).
Qed.

Lemma verbose_only_adds_output_witness :
  exists fuel' tr tr',
    run sim_os 64 (main linux ["sercat"; "-w"; "/dev/ttyS0"] [])
      (tty_world hello None)
    = Some (Exited 0, sim_close (sim_put (sim_take (sim_set_attr
              (tty_world hello None) (linux_cfmakeraw raw0)) 6) hello) 3, tr)
    /\ run sim_os fuel' (main linux ["sercat"; "-w"; "-v"; "/dev/ttyS0"] [])
         (tty_world hello None)
       = Some (Exited 0, sim_close (sim_put (sim_take (sim_set_attr
                 (tty_world hello None) (linux_cfmakeraw raw0)) 6) hello) 3,
               tr')
    /\ but_stdout tr' = but_stdout tr.
Proof.
  destruct (proj1 (@verbose_only_adds_output sim sim_os linux "sercat" "-v"
                     ["-w"] ["/dev/ttyS0"] (set_write opts0) []
                     eq_refl (or_introl eq_refl))
              64%nat (tty_world hello None) _ _ _ eq_refl)
    as (fuel' & tr' & Hr & Hb).
  eexists fuel', _, tr'. split; [vm_compute; reflexivity|].
  split; [exact Hr | exact Hb].
Defined.

(* ===================================================================== *)
(** * Read mode *)
(* ===================================================================== *)

Section ReadMode.

Variable P : platform.

Lemma parse_args_no_write_le (n : nat) :
  forall (args : list string) (o o' : opts),
    (List.length args <= n)%nat ->
    (forall a, In a args -> is_write a = false) ->
    opt_write o = false ->
    parse_args P args o = Some o' -> opt_write o' = false.
Proof.
  induction n as [|n IH]; intros args o o' Hlen Hno Hw.
  - destruct args; [|cbn in Hlen; lia]. cbn. intros H. inversion H; subst.
    exact Hw.
  - destruct args as [|a args];
      [cbn; intros H; inversion H; subst; exact Hw|].
    cbn in Hlen. cbn [parse_args].
    assert (Ha : (a =? "-w")%string || (a =? "--write")%string = false)
      by (apply Hno; left; reflexivity).
    rewrite Ha.
    assert (Hno' : forall x, In x args -> is_write x = false)
      by (intros x Hx; apply Hno; right; exact Hx).
    repeat match goal with
           | |- context [if ?c then _ else _] =>
             lazymatch c with
             | (_ || _)%bool =>
               destruct c;
               [try discriminate;
                try (apply IH; [lia | exact Hno' | exact Hw])|]
             end
           end.
    + destruct args as [|v args]; [discriminate|]. cbn in Hlen.
      apply IH; [lia | | exact Hw].
      intros x Hx. apply Hno'. right. exact Hx.
    + destruct (opt_dev o); [discriminate|].
      apply IH; [lia | exact Hno' | exact Hw].
Qed.

Lemma parse_args_read_le (n : nat) :
  forall (args : list string) (o o' : opts),
    (List.length args <= n)%nat ->
    same_but_read o o' ->
    match parse_args P args o, parse_args P args o' with
    | Some r, Some r' => same_but_read r r'
    | None, None => True
    | _, _ => False
    end.
Proof.
  induction n as [|n IH]; intros args o o' Hlen Hs.
  - destruct args; [|cbn in Hlen; lia]. exact Hs.
  - destruct args as [|a args]; [exact Hs|].
    cbn in Hlen. cbn [parse_args].
    repeat match goal with
           | |- context [if ?c then _ else _] =>
             lazymatch c with
             | (_ || _)%bool =>
               destruct c;
               [try exact I;
                try (apply IH; [lia|];
                     unfold same_but_read in *; cbn; tauto)|]
             end
           end.
    + destruct args as [|v args]; [exact I|]. cbn in Hlen.
      apply IH; [lia|]. unfold same_but_read in *; cbn; tauto.
    + destruct Hs as (Hd & Hs).
      rewrite <- Hd. destruct (opt_dev o); [exact I|].
      apply IH; [lia|]. unfold same_but_read in *; cbn; tauto.
Qed.

End ReadMode.

(** X21.  Read mode is the default: on a command line without [-w] and
    [--write], a [-r] or [--read] where an option is expected can be
    left out without any change to what [main] does. *)
Theorem read_mode_is_the_default :
  forall (P : platform) (prog r : string) (pre post : list string)
         (o1 : opts) (buf : list byte),
    parse_args P pre opts0 = Some o1 ->
    is_read r = true ->
    (forall a, In a (pre ++ post) -> is_write a = false) ->
    main P (prog :: pre ++ r :: post) buf = main P (prog :: pre ++ post) buf.
Proof.
  intros P prog r pre post o1 buf Hpre Hr Hno.
  assert (Hw1 : opt_write o1 = false).
  { apply (@parse_args_no_write_le P (List.length pre) pre opts0 o1);
      [lia | | reflexivity | exact Hpre].
    intros a Ha. apply Hno, in_or_app. left. exact Ha. }
  unfold main. cbn [tl].
  rewrite !(@parse_args_app P _ _ _ _ Hpre).
  replace (parse_args P (r :: post) o1)
    with (parse_args P post (set_read o1)).
  2: { unfold is_read in Hr. apply orb_true_iff in Hr.
       destruct Hr as [Hr|Hr]; apply String.eqb_eq in Hr; subst r;
         reflexivity. }
  assert (Hs : same_but_read (set_read o1) o1)
    by (unfold same_but_read; cbn; tauto).
  pose proof (@parse_args_read_le P (List.length post) post _ _ (le_n _) Hs)
    as Ha.
  assert (Hw : forall o', parse_args P post o1 = Some o' ->
                          opt_write o' = false).
  { intros o'. apply (@parse_args_no_write_le P (List.length post));
      [lia | | exact Hw1].
    intros a Hin. apply Hno, in_or_app. right. exact Hin. }
  destruct (parse_args P post (set_read o1)) as [o|],
           (parse_args P post o1) as [o'|]; try contradiction;
    [|reflexivity].
  destruct Ha as (Hd & Hsp & Hwr & Hh & Hn & Hv).
  specialize (Hw o' eq_refl).
  unfold relay, device_open, pr_debug.
  rewrite Hd, Hsp, Hwr, Hh, Hn, Hv, Hw, !andb_false_r. reflexivity.
Qed.

Lemma read_mode_is_the_default_witness :
  main linux ["sercat"; "-v"; "--read"; "/dev/ttyS0"] []
  = main linux ["sercat"; "-v"; "/dev/ttyS0"] [].
Proof.
  apply (@read_mode_is_the_default linux "sercat" "--read" ["-v"]
           ["/dev/ttyS0"] (set_verbose opts0) []).
  - reflexivity.
  - reflexivity.
  - cbn. intros a H.
    repeat (destruct H as [<-|H]; [reflexivity|]). contradiction.
Defined.

(* ===================================================================== *)
(** * The program at work *)
(* ===================================================================== *)

(** [sercat /tmp/data] on a file that holds "hello\n": the six bytes
    reach standard output and the status is 0. *)
Example sercat_copies_hello :
  exists w' tr,
    run sim_os 32 (main linux ["sercat"; "/tmp/data"] []) (file_world hello [])
    = Some (Exited 0, w', tr)
    /\ sim_sink w' = hello
    /\ writes 1 tr = [hello].
Proof.
  eexists _, _. split; [vm_compute; reflexivity|].
  split; vm_compute; reflexivity.
Qed.

(** Five thousand bytes take five turns of the loop. *)
Example relay_splits_5000_bytes :
  exists w' tr,
    run sim_os 32 (relay linux opts0 3 1 [])
      (file_world (repeat Byte.x55 5000) [])
    = Some (Exited 0, w', tr)
    /\ sim_sink w' = repeat Byte.x55 5000
    /\ List.map (@List.length byte) (writes 1 tr)
       = [1024; 1024; 1024; 1024; 904]%nat.
Proof.
  eexists _, _. split; [vm_compute; reflexivity|].
  split; vm_compute; reflexivity.
Qed.

(** [sercat -w -f -s 115200 tty]: raw mode, flow control, then the
    speed with the symbol of [B115200], then the flush. *)
Example sercat_configures_a_terminal :
  exists w' tr,
    run sim_os 32
      (main linux ["sercat"; "-w"; "-f"; "-s"; "115200"; "/dev/ttyS0"] [])
      (tty_world hello None)
    = Some (Exited 0, w', tr)
    /\ c_ospeed (sim_attr w') = 4098
    /\ Z.land (c_cflag (sim_attr w')) (CRTSCTS linux) = CRTSCTS linux
    /\ sim_sink w' = hello
    /\ sim_closed w' = [3].
Proof.
  eexists _, _. split; [vm_compute; reflexivity|].
  repeat split; vm_compute; reflexivity.
Qed.
